(** * Pipeline-aware scheduler plugins (package [sophos] and its score plugins)

    A shallow embedding of the helper functions of package [sophos]
    ([AreLesserOrderPodsScheduled], [ArePodsNeighbors], [GetSharedChainsSlos],
    [GetOwnerDeployment], [GetAppCpuUsage], ...) and of the score plugins
    [NetworkSloAware] and [LoadAwareResourcesBalancedAllocation], together with
    the properties of the admission gate, the neighbour relation, the SLO cost
    and the score normaliser.

    Go values are modelled as follows.
    - [int64] is a [Z] kept in range by an explicit wrap-around ([Int64.wrap]).
    - [float64] is the IEEE 754 binary64 format of the Standard Library's
      [SpecFloat] (an executable specification; no primitive floats).
    - [map[string]string] is a [gmap string string]; the order in which a
      [range] loop visits a map, which Go leaves unspecified, is a component of
      the environment [GoEnv].
    - the API server behind [framework.Handle] is a record of fallible
      functions returning [option]. *)

From Stdlib Require Import ZArith Lia Ascii String Floats.SpecFloat DecimalString.
From Stdlib Require DecimalPos.
From stdpp Require Import gmap strings list fin_maps.

Open Scope Z_scope.

(** ** 64-bit signed integers *)

Module Int64.

Definition MaxInt64 : Z := 2 ^ 63 - 1.
Definition MinInt64 : Z := - 2 ^ 63.

Definition in_range (z : Z) : Prop := MinInt64 <= z <= MaxInt64.
Definition in_rangeb (z : Z) : bool := (MinInt64 <=? z) && (z <=? MaxInt64).

(** Two's complement reduction of a mathematical integer. *)
Definition wrap (z : Z) : Z := (z + 2 ^ 63) mod 2 ^ 64 - 2 ^ 63.

Definition add (a b : Z) : Z := wrap (a + b).
Definition sub (a b : Z) : Z := wrap (a - b).
Definition mul (a b : Z) : Z := wrap (a * b).
(** Go's [/] on integers truncates toward zero; [MinInt64 / -1] wraps. *)
Definition quot (a b : Z) : Z := wrap (Z.quot a b).

End Int64.

(** ** IEEE 754 binary64 *)

Module Float64.

Definition prec : Z := 53.
Definition emax : Z := 1024.

Definition float64 : Type := spec_float.

Definition zero : float64 := S754_zero false.
Definition add : float64 -> float64 -> float64 := SFadd prec emax.
Definition sub : float64 -> float64 -> float64 := SFsub prec emax.
Definition mul : float64 -> float64 -> float64 := SFmul prec emax.
Definition div : float64 -> float64 -> float64 := SFdiv prec emax.
Definition neg : float64 -> float64 := SFopp.
(** [math.Abs] *)
Definition Abs : float64 -> float64 := SFabs.

(** The conversion [float64(n)] of an integer: round to nearest even. *)
Definition of_Z (n : Z) : float64 := binary_normalize prec emax n 0 false.

(** Integer part (truncation toward zero) of a finite float; [None] for
    NaN and the infinities. *)
Definition trunc (x : float64) : option Z :=
  match x with
  | S754_zero _ => Some 0
  | S754_finite s m e => Some (cond_Zopp s (Z.shiftl (Z.pos m) e))
  | S754_infinity _ | S754_nan => None
  end.

Definition is_infinity (x : float64) : bool :=
  match x with S754_infinity _ => true | _ => false end.

(** The float of sign [s] and magnitude [N], for an integer [0 < N < 2^53]:
    the mantissa is [N] shifted to 53 bits. *)
Definition integer_float (s : bool) (N : Z) : float64 :=
  S754_finite s (Z.to_pos (N * 2 ^ (52 - Z.log2 N))) (Z.log2 N - 52).

(** Round to nearest even of [(-1)^s * num / den], for [0 <= num] and
    [0 < den].  The quotient is computed with at least two bits more than the
    format holds, and a last bit that records a non-zero remainder, so that
    the single rounding of [binary_normalize] is the rounding of the exact
    ratio. *)
Definition round_ratio (s : bool) (num den : Z) : float64 :=
  if num =? 0 then S754_zero s
  else
    let k := Z.max 0 (Z.log2 den + 57 - Z.log2 num) in
    let q := Z.shiftl num k / den in
    let sticky := if Z.shiftl num k mod den =? 0 then 0 else 1 in
    binary_normalize prec emax (cond_Zopp s (2 * q + sticky)) (- k - 1) false.

End Float64.

Export Float64(float64).

(** ** The parts of package [strconv] that the helpers call *)

Module strconv.

Inductive NumError := ErrSyntax | ErrRange.

Definition digit_of (c : ascii) : option Z :=
  let n := Z.of_N (N_of_ascii c) in
  if (48 <=? n) && (n <=? 57) then Some (n - 48) else None.

Fixpoint digits_value (s : string) (acc : Z) : option Z :=
  match s with
  | EmptyString => Some acc
  | String c r =>
      match digit_of c with
      | Some d => digits_value r (acc * 10 + d)
      | None => None
      end
  end.

(** Splits an optional leading sign off a string. *)
Definition split_sign (s : string) : bool * string :=
  match s with
  | String "-" r => (true, r)
  | String "+" r => (false, r)
  | _ => (false, s)
  end.

(** [strconv.Atoi] on a platform where [int] has 64 bits: an optional sign
    followed by one or more decimal digits, and a value that fits.  The
    helpers only test the error, so a failure is [None]. *)
Definition Atoi (s : string) : option Z :=
  let '(negative, body) := split_sign s in
  match body with
  | EmptyString => None
  | _ =>
      match digits_value body 0 with
      | Some n =>
          let v := if negative then - n else n in
          if Int64.in_rangeb v then Some v else None
      | None => None
      end
  end.

(** [strconv.Itoa]: the decimal numeral, with a minus sign when negative. *)
Definition Itoa (i : Z) : string := NilZero.string_of_int (Z.to_int i).

End strconv.

Export strconv(NumError(..)).

(** ** The environment of a run

    Three things are fixed outside of the code under study:
    - [ParseFloat] is [strconv.ParseFloat (s, 64)]: the value it returns
      together with its error, [None] standing for [nil].  On a syntax error
      Go returns the value 0, on a range error an infinity; the helpers go on
      with that value wherever they do not return.
    - [int64_unrepresentable x] is the result of the conversion [int64(x)]
      when [x] is NaN, infinite, or has an integer part outside of [int64]; Go
      leaves it to the implementation.
    - [range_order m] is the order in which a [range] loop visits the map
      [m]. *)

Class GoEnv := {
  ParseFloat : string -> float64 * option NumError;
  int64_unrepresentable : float64 -> Z;
  range_order : gmap string string -> list (string * string);
}.

(** A [range] loop visits every entry of the map once. *)
Class GoEnvOK (E : GoEnv) : Prop := {
  range_order_perm : forall m, range_order m ≡ₚ map_to_list m;
}.

(** The conversion [int64(x)] of a [float64]. *)
Definition int64_of_float64 `{GoEnv} (x : float64) : Z :=
  match Float64.trunc x with
  | Some z => if Int64.in_rangeb z then z else int64_unrepresentable x
  | None => int64_unrepresentable x
  end.

(** ** API objects, restricted to the fields that the plugins read *)

Module OwnerReference.
Record t := { Kind : string; Name : string }.
End OwnerReference.

Module Pod.
Record t := {
  Name : string;
  Namespace : string;
  Labels : gmap string string;
  Annotations : gmap string string;
  OwnerReferences : list OwnerReference.t;
  (** [Spec.NodeName]: the node the pod is bound to, empty while unbound *)
  Spec_NodeName : string;
}.
End Pod.

Module ReplicaSet.
Record t := {
  Name : string;
  Namespace : string;
  OwnerReferences : list OwnerReference.t;
}.
End ReplicaSet.

Module Deployment.
Record t := {
  Name : string;
  Namespace : string;
  Annotations : gmap string string;
}.
End Deployment.

Module Node.
Record t := { Name : string; Annotations : gmap string string }.
End Node.

Module NodeInfo.
Record t := {
  Node : Node.t;
  Allocatable_MilliCPU : Z;
  Allocatable_Memory : Z;
}.
End NodeInfo.

Module NodeScore.
Record t := { Name : string; Score : Z }.
End NodeScore.

(** [metav1.ListOptions].  The source renders the label selector as a string
    ([labels.Set(...).String()]) and the field selector as
    ["spec.nodeName=" + name]; the model keeps the set of required labels and
    the required node name themselves. *)
Module ListOptions.
Record t := {
  LabelSelector : gmap string string;
  FieldSelector_nodeName : option string;
}.
End ListOptions.

(** [framework.Handle]: the requests the plugins send to the API server and to
    the scheduler's snapshot.  Every request can fail; [None] is a non-nil
    error. *)
Record Handle := {
  Pods_List : string -> ListOptions.t -> option (list Pod.t);
  ReplicaSets_Get : string -> string -> option ReplicaSet.t;
  Deployments_Get : string -> string -> option Deployment.t;
  NodeInfos_Get : string -> option NodeInfo.t;
  NodeInfos_List : option (list NodeInfo.t);
}.

(** *** A cluster that answers every request from a fixed content *)

Module Cluster.

Record t := {
  pods : list Pod.t;
  replicaSets : list ReplicaSet.t;
  deployments : list Deployment.t;
  nodes : list NodeInfo.t;
}.

(** A pod satisfies a label selector when it carries every required label
    with the required value. *)
Definition has_labels (sel : gmap string string) (p : Pod.t) : bool :=
  forallb (fun kv => bool_decide (Pod.Labels p !! kv.1 = Some kv.2))
          (map_to_list sel).

Definition on_node (f : option string) (p : Pod.t) : bool :=
  match f with
  | Some n => String.eqb (Pod.Spec_NodeName p) n
  | None => true
  end.

Definition selected (namespace : string) (opts : ListOptions.t) (p : Pod.t) : bool :=
  String.eqb (Pod.Namespace p) namespace
  && has_labels (ListOptions.LabelSelector opts) p
  && on_node (ListOptions.FieldSelector_nodeName opts) p.

Definition list_pods (store : list Pod.t) (namespace : string)
           (opts : ListOptions.t) : list Pod.t :=
  List.filter (selected namespace opts) store.

Definition handle (c : t) : Handle := {|
  Pods_List ns opts := Some (list_pods (pods c) ns opts);
  ReplicaSets_Get ns name :=
    List.find (fun r => String.eqb (ReplicaSet.Namespace r) ns
                        && String.eqb (ReplicaSet.Name r) name) (replicaSets c);
  Deployments_Get ns name :=
    List.find (fun d => String.eqb (Deployment.Namespace d) ns
                        && String.eqb (Deployment.Name d) name) (deployments c);
  NodeInfos_Get name :=
    List.find (fun n => String.eqb (Node.Name (NodeInfo.Node n)) name) (nodes c);
  NodeInfos_List := Some (nodes c);
|}.

End Cluster.

(** The pod listing of [h] is the one of a cluster whose pods are [store]. *)
Definition serves_pods (h : Handle) (store : list Pod.t) : Prop :=
  forall ns opts, Pods_List h ns opts = Some (Cluster.list_pods store ns opts).

(** ** Package [sophos]: the helpers shared by the plugins *)

Module sophos.
Section Helpers.
Context `{E : GoEnv}.

(** [strings.HasPrefix(key, "chain-")] *)
Definition is_chain_key (key : string) : bool := String.prefix "chain-" key.

Definition GetOwnerDeployment (handle : Handle) (pod : Pod.t)
  : option Deployment.t :=
  match Pod.OwnerReferences pod with
  | [] => None
  | owner :: _ =>
      if negb (String.eqb (OwnerReference.Kind owner) "ReplicaSet") then None
      else
        match ReplicaSets_Get handle (Pod.Namespace pod)
                              (OwnerReference.Name owner) with
        | None => None
        | Some replicaSet =>
            match ReplicaSet.OwnerReferences replicaSet with
            | [] => None
            | rsOwner :: _ =>
                Deployments_Get handle (ReplicaSet.Namespace replicaSet)
                                (OwnerReference.Name rsOwner)
            end
        end
  end.

(** *** [AreLesserOrderPodsScheduled] *)

(** The selector of the pods one stage before [index] on [key]. *)
Definition lesser_order_selector (appGroup key : string) (index : Z)
  : ListOptions.t :=
  {| ListOptions.LabelSelector :=
       {[ "app-group" := appGroup; key := strconv.Itoa (index - 1) ]};
     ListOptions.FieldSelector_nodeName := None |}.

(** The scan of [lesserOrderPods.Items]: [false] at the first pod that is
    not bound to a node. *)
Fixpoint all_bound (items : list Pod.t) : bool :=
  match items with
  | [] => true
  | lesserOrderPod :: rest =>
      if String.eqb (Pod.Spec_NodeName lesserOrderPod) "" then false
      else all_bound rest
  end.

(** The body of the loop over the labels, on the entries still to visit. *)
Fixpoint lesser_order_loop (handle : Handle) (namespace appGroup : string)
         (visit : list (string * string)) : bool :=
  match visit with
  | [] => true
  | (key, value) :: rest =>
      if is_chain_key key then
        match strconv.Atoi value with
        | None => false
        | Some index =>
            if 0 <? index then
              match Pods_List handle namespace
                              (lesser_order_selector appGroup key index) with
              | None => false
              | Some items =>
                  match items with
                  | [] => false
                  | _ :: _ =>
                      if all_bound items
                      then lesser_order_loop handle namespace appGroup rest
                      else false
                  end
              end
            else lesser_order_loop handle namespace appGroup rest
        end
      else lesser_order_loop handle namespace appGroup rest
  end.

Definition AreLesserOrderPodsScheduled (handle : Handle) (pod : Pod.t) : bool :=
  let namespace := Pod.Namespace pod in
  match Pod.Labels pod !! "app-group" with
  | None => false
  | Some appGroup =>
      lesser_order_loop handle namespace appGroup (range_order (Pod.Labels pod))
  end.

(** *** [ArePodsNeighbors] *)

(** [int64(math.Abs(index - peerIndex)) == 1] *)
Definition one_apart (index peerIndex : float64) : bool :=
  int64_of_float64 (Float64.Abs (Float64.sub index peerIndex)) =? 1.

(** A parse error is logged and the loop goes on with the value that
    [ParseFloat] returned. *)
Fixpoint neighbors_loop (peerPod : Pod.t) (visit : list (string * string))
  : bool :=
  match visit with
  | [] => false
  | (key, value) :: rest =>
      if is_chain_key key then
        let '(index, _) := ParseFloat value in
        match Pod.Labels peerPod !! key with
        | Some peerValue =>
            let '(peerIndex, _) := ParseFloat peerValue in
            if one_apart index peerIndex then true
            else neighbors_loop peerPod rest
        | None => neighbors_loop peerPod rest
        end
      else neighbors_loop peerPod rest
  end.

Definition ArePodsNeighbors (pod peerPod : Pod.t) : bool :=
  match Pod.Labels pod !! "app-group" with
  | None => false
  | Some appGroup =>
      match Pod.Labels peerPod !! "app-group" with
      | None => false
      | Some peerAppGroup =>
          if negb (String.eqb appGroup peerAppGroup) then false
          else neighbors_loop peerPod (range_order (Pod.Labels pod))
      end
  end.

(** *** [GetSharedChainsSlos] *)

(** [chainsSlos] is the slice gathered so far; every [return chainsSlos]
    of the loop hands it back as it is. *)
Fixpoint shared_slos_loop (pod peerPod : Pod.t)
         (visit : list (string * string)) (chainsSlos : list float64)
  : list float64 :=
  match visit with
  | [] => chainsSlos
  | (key, value) :: rest =>
      if is_chain_key key then
        match ParseFloat value with
        | (_, Some _) => chainsSlos
        | (index, None) =>
            match Pod.Labels peerPod !! key with
            | Some peerValue =>
                let '(peerIndex, _) := ParseFloat peerValue in
                if one_apart index peerIndex then
                  match Pod.Annotations pod !! String.append key "-slo" with
                  | None => chainsSlos
                  | Some chainSloAnnotation =>
                      match ParseFloat chainSloAnnotation with
                      | (_, Some _) => chainsSlos
                      | (chainSlo, None) =>
                          shared_slos_loop pod peerPod rest
                                           (chainsSlos ++ [chainSlo])
                      end
                  end
                else shared_slos_loop pod peerPod rest chainsSlos
            | None => shared_slos_loop pod peerPod rest chainsSlos
            end
        end
      else shared_slos_loop pod peerPod rest chainsSlos
  end.

Definition GetSharedChainsSlos (pod peerPod : Pod.t) : list float64 :=
  let chainsSlos := [] in
  match Pod.Labels pod !! "app-group" with
  | None => chainsSlos
  | Some appGroup =>
      match Pod.Labels peerPod !! "app-group" with
      | None => chainsSlos
      | Some peerAppGroup =>
          if negb (String.eqb appGroup peerAppGroup) then chainsSlos
          else shared_slos_loop pod peerPod (range_order (Pod.Labels pod))
                                chainsSlos
      end
  end.

(** *** Annotation readers *)

(** The shape shared by the readers: a missing annotation and a parse error
    both give 0.0. *)
Definition annotation_or_zero (annotations : gmap string string)
           (key : string) : float64 :=
  match annotations !! key with
  | None => Float64.zero
  | Some annotation =>
      match ParseFloat annotation with
      | (_, Some _) => Float64.zero
      | (usage, None) => usage
      end
  end.

Definition GetAppCpuUsage (handle : Handle) (pod : Pod.t) : float64 :=
  match GetOwnerDeployment handle pod with
  | None => Float64.zero
  | Some deployment =>
      annotation_or_zero (Deployment.Annotations deployment) "cpu-usage"
  end.

Definition GetAppMemoryUsage (handle : Handle) (pod : Pod.t) : float64 :=
  match GetOwnerDeployment handle pod with
  | None => Float64.zero
  | Some deployment =>
      annotation_or_zero (Deployment.Annotations deployment) "memory-usage"
  end.

(** The rate is read from the annotations of the pod, once the owner
    deployment has been found. *)
Definition GetAppRequestsPerSecond (handle : Handle) (pod peerPod : Pod.t)
  : float64 :=
  match Pod.Labels pod !! "app-group" with
  | None => Float64.zero
  | Some appGroup =>
      match Pod.Labels peerPod !! "app-group" with
      | None => Float64.zero
      | Some peerAppGroup =>
          if negb (String.eqb appGroup peerAppGroup) then Float64.zero
          else
            match Pod.Labels peerPod !! "app" with
            | None => Float64.zero
            | Some peerApp =>
                match GetOwnerDeployment handle pod with
                | None => Float64.zero
                | Some _ =>
                    annotation_or_zero (Pod.Annotations pod)
                                       (String.append "rps." peerApp)
                end
            end
      end
  end.

(** The traffic is read from the annotations of the owner deployment. *)
Definition GetAppTraffic (handle : Handle) (pod peerPod : Pod.t) : float64 :=
  match Pod.Labels pod !! "app-group" with
  | None => Float64.zero
  | Some appGroup =>
      match Pod.Labels peerPod !! "app-group" with
      | None => Float64.zero
      | Some peerAppGroup =>
          if negb (String.eqb appGroup peerAppGroup) then Float64.zero
          else
            match Pod.Labels peerPod !! "app" with
            | None => Float64.zero
            | Some peerApp =>
                match GetOwnerDeployment handle pod with
                | None => Float64.zero
                | Some deployment =>
                    annotation_or_zero (Deployment.Annotations deployment)
                                       (String.append "traffic." peerApp)
                end
            end
      end
  end.

Definition GetNodeCpuUsage (node : Node.t) : float64 :=
  annotation_or_zero (Node.Annotations node) "cpu-usage".

Definition GetNodeMemoryUsage (node : Node.t) : float64 :=
  annotation_or_zero (Node.Annotations node) "memory-usage".

Definition GetNodeLatency (node peerNode : Node.t) : float64 :=
  annotation_or_zero (Node.Annotations node)
                     (String.append "network-latency." (Node.Name peerNode)).

End Helpers.
End sophos.

(** The other revision of the helper file in the sources reads the predicted
    usage from the annotations of the pod itself, with no owner traversal. *)
Module sophos_pod_annotations.
Section Helpers.
Context `{E : GoEnv}.

Definition GetAppCpuUsage (pod : Pod.t) : float64 :=
  sophos.annotation_or_zero (Pod.Annotations pod) "cpu-usage".

Definition GetAppMemoryUsage (pod : Pod.t) : float64 :=
  sophos.annotation_or_zero (Pod.Annotations pod) "memory-usage".

Definition GetAppRequestsPerSecond (pod peerPod : Pod.t) : float64 :=
  match Pod.Labels pod !! "app-group" with
  | None => Float64.zero
  | Some appGroup =>
      match Pod.Labels peerPod !! "app-group" with
      | None => Float64.zero
      | Some peerAppGroup =>
          if negb (String.eqb appGroup peerAppGroup) then Float64.zero
          else
            match Pod.Labels peerPod !! "app" with
            | None => Float64.zero
            | Some peerApp =>
                sophos.annotation_or_zero (Pod.Annotations pod)
                                          (String.append "rps." peerApp)
            end
      end
  end.

Definition GetAppTraffic (pod peerPod : Pod.t) : float64 :=
  match Pod.Labels pod !! "app-group" with
  | None => Float64.zero
  | Some appGroup =>
      match Pod.Labels peerPod !! "app-group" with
      | None => Float64.zero
      | Some peerAppGroup =>
          if negb (String.eqb appGroup peerAppGroup) then Float64.zero
          else
            match Pod.Labels peerPod !! "app" with
            | None => Float64.zero
            | Some peerApp =>
                sophos.annotation_or_zero (Pod.Annotations pod)
                                          (String.append "traffic." peerApp)
            end
      end
  end.

End Helpers.
End sophos_pod_annotations.

(** ** The scheduling framework, as far as the plugins use it *)

Module framework.

(** Modelled from the spec: [framework.MinNodeScore] and
    [framework.MaxNodeScore] are constants of the host scheduler, whose
    declaration is not part of the sources; the normalised range is
    [0, 100]. *)
Definition MinNodeScore : Z := 0.
Definition MaxNodeScore : Z := 100.

(** The codes of the statuses that the plugins build.  The sources name two
    of them, [Success] and [Error]; [Other] stands for the codes that they do
    not name. *)
Inductive Code := Success | Error | Other (code : Z).

End framework.

(** *** [NormalizeScore], the same text in the three plugins *)

Section Normalize.

(** First loop: the highest and the lowest score. *)
Fixpoint find_bounds (scores : list NodeScore.t) (highest lowest : Z) : Z * Z :=
  match scores with
  | [] => (highest, lowest)
  | nodeScore :: rest =>
      let highest :=
        if NodeScore.Score nodeScore >? highest
        then NodeScore.Score nodeScore else highest in
      let lowest :=
        if NodeScore.Score nodeScore <? lowest
        then NodeScore.Score nodeScore else lowest in
      find_bounds rest highest lowest
  end.

(** The value stored into [scores[i].Score]. *)
Definition rescale (lowest oldRange newRange score : Z) : Z :=
  if oldRange =? 0 then framework.MinNodeScore
  else Int64.add (Int64.quot (Int64.mul (Int64.sub score lowest) newRange)
                             oldRange)
                 framework.MinNodeScore.

(** One turn of the second loop: [nodeScore] is a copy of [scores[i]], and
    the assignment overwrites the score at index [i] of the slice. *)
Definition rescale_at (lowest oldRange newRange : Z)
           (scores : list NodeScore.t) (i : nat) : list NodeScore.t :=
  match scores !! i with
  | Some nodeScore =>
      <[ i := {| NodeScore.Name := NodeScore.Name nodeScore;
                 NodeScore.Score := rescale lowest oldRange newRange
                                            (NodeScore.Score nodeScore) |} ]>
        scores
  | None => scores
  end.

(** The slice after the call, and the returned status ([None] is [nil]). *)
Definition NormalizeScore (scores : list NodeScore.t)
  : list NodeScore.t * option framework.Code :=
  let '(highest, lowest) :=
    find_bounds scores (- Int64.MaxInt64) Int64.MaxInt64 in
  let oldRange := Int64.sub highest lowest in
  let newRange := Int64.sub framework.MaxNodeScore framework.MinNodeScore in
  (fold_left (rescale_at lowest oldRange newRange)
             (seq 0 (length scores)) scores,
   None).

End Normalize.

(** *** Plugin [NetworkSloAware] *)

Module NetworkSloAware.
Section Plugin.
Context `{E : GoEnv}.

(** [queue] is the value of [framework.Code(framework.Queue)].  The
    queueing hint [framework.Queue] is a constant of the host scheduler whose
    declaration is not part of the sources, so the code that its conversion
    gives is an argument: it can be any code, [Success] and [Error]
    included. *)
Definition PreFilter (queue : framework.Code) (handle : Handle) (pod : Pod.t)
  : framework.Code :=
  if sophos.AreLesserOrderPodsScheduled handle pod then framework.Success
  else queue.

(** The constant added to the request rate. *)
Definition rps_offset : float64 := Float64.of_Z 100.

(** [int64(nodeLatency * (rps + 100) / chainSlo)] *)
Definition slo_term (nodeLatency rps chainSlo : float64) : Z :=
  int64_of_float64
    (Float64.div (Float64.mul nodeLatency (Float64.add rps rps_offset))
                 chainSlo).

(** The loop over [chainsSlos]. *)
Fixpoint slos_loop (nodeLatency rps : float64) (chainsSlos : list float64)
         (score : Z) : Z :=
  match chainsSlos with
  | [] => score
  | chainSlo :: rest =>
      slos_loop nodeLatency rps rest
                (Int64.sub score (slo_term nodeLatency rps chainSlo))
  end.

(** The loop over the pods of one node. *)
Fixpoint pods_loop (handle : Handle) (pod : Pod.t) (nodeLatency : float64)
         (items : list Pod.t) (score : Z) : Z :=
  match items with
  | [] => score
  | peerPod :: rest =>
      if sophos.ArePodsNeighbors pod peerPod then
        let chainsSlos := sophos.GetSharedChainsSlos pod peerPod in
        let rps := sophos.GetAppRequestsPerSecond handle pod peerPod in
        pods_loop handle pod nodeLatency rest
                  (slos_loop nodeLatency rps chainsSlos score)
      else pods_loop handle pod nodeLatency rest score
  end.

Definition pods_on (clusterNode : NodeInfo.t) : ListOptions.t :=
  {| ListOptions.LabelSelector := ∅;
     ListOptions.FieldSelector_nodeName :=
       Some (Node.Name (NodeInfo.Node clusterNode)) |}.

(** The loop over the nodes of the cluster; a failed listing ends the call
    with score 0 and an error status. *)
Fixpoint nodes_loop (handle : Handle) (pod : Pod.t) (node : NodeInfo.t)
         (clusterNodes : list NodeInfo.t) (score : Z)
  : Z * option framework.Code :=
  match clusterNodes with
  | [] => (score, None)
  | clusterNode :: rest =>
      match Pods_List handle (Pod.Namespace pod) (pods_on clusterNode) with
      | None => (0, Some framework.Error)
      | Some items =>
          let nodeLatency :=
            sophos.GetNodeLatency (NodeInfo.Node node)
                                  (NodeInfo.Node clusterNode) in
          nodes_loop handle pod node rest
                     (pods_loop handle pod nodeLatency items score)
      end
  end.

Definition Score (handle : Handle) (pod : Pod.t) (nodeName : string)
  : Z * option framework.Code :=
  match NodeInfos_Get handle nodeName with
  | None => (0, Some framework.Error)
  | Some node =>
      match NodeInfos_List handle with
      | None => (0, Some framework.Error)
      | Some clusterNodes => nodes_loop handle pod node clusterNodes 0
      end
  end.

End Plugin.
End NetworkSloAware.

(** *** Plugin [LoadAwareResourcesBalancedAllocation] *)

Module LoadAwareResourcesBalancedAllocation.
Section Plugin.
Context `{E : GoEnv}.

Definition usage_ratio (appUsage nodeUsage : float64) (allocatable : Z)
  : float64 :=
  Float64.div
    (Float64.mul (Float64.neg (Float64.add appUsage nodeUsage))
                 (Float64.of_Z 100))
    (Float64.of_Z allocatable).

Definition Score (handle : Handle) (pod : Pod.t) (nodeName : string)
  : Z * option framework.Code :=
  match NodeInfos_Get handle nodeName with
  | None => (0, Some framework.Error)
  | Some node =>
      let cpuUsageRatio :=
        usage_ratio (sophos.GetAppCpuUsage handle pod)
                    (sophos.GetNodeCpuUsage (NodeInfo.Node node))
                    (NodeInfo.Allocatable_MilliCPU node) in
      let memoryUsageRatio :=
        usage_ratio (sophos.GetAppMemoryUsage handle pod)
                    (sophos.GetNodeMemoryUsage (NodeInfo.Node node))
                    (NodeInfo.Allocatable_Memory node) in
      let std :=
        Float64.Abs (Float64.div (Float64.sub cpuUsageRatio memoryUsageRatio)
                                 (Float64.of_Z 2)) in
      let score :=
        int64_of_float64
          (Float64.mul (Float64.sub (Float64.of_Z 1) std)
                       (Float64.of_Z framework.MaxNodeScore)) in
      (score, None)
  end.

End Plugin.
End LoadAwareResourcesBalancedAllocation.

(** *** Plugin [NetworkAware]

    Its [Score] calls [GetAppTraffic] with two arguments, the revision of the
    helpers that reads the annotations of the pod. *)

Module NetworkAware.
Section Plugin.
Context `{E : GoEnv}.

(** [int64(GetNodeLatency(node, clusterNode) * GetAppTraffic(pod, peerPod))] *)
Definition traffic_term (node clusterNode : NodeInfo.t) (pod peerPod : Pod.t)
  : Z :=
  int64_of_float64
    (Float64.mul
       (sophos.GetNodeLatency (NodeInfo.Node node) (NodeInfo.Node clusterNode))
       (sophos_pod_annotations.GetAppTraffic pod peerPod)).

(** The loop over the pods of one node. *)
Fixpoint pods_loop (pod : Pod.t) (node clusterNode : NodeInfo.t)
         (items : list Pod.t) (score : Z) : Z :=
  match items with
  | [] => score
  | peerPod :: rest =>
      pods_loop pod node clusterNode rest
                (Int64.sub score (traffic_term node clusterNode pod peerPod))
  end.

Definition pods_on (clusterNode : NodeInfo.t) : ListOptions.t :=
  {| ListOptions.LabelSelector := ∅;
     ListOptions.FieldSelector_nodeName :=
       Some (Node.Name (NodeInfo.Node clusterNode)) |}.

(** The loop over the nodes of the cluster. *)
Fixpoint nodes_loop (handle : Handle) (pod : Pod.t) (node : NodeInfo.t)
         (clusterNodes : list NodeInfo.t) (score : Z)
  : Z * option framework.Code :=
  match clusterNodes with
  | [] => (score, None)
  | clusterNode :: rest =>
      match Pods_List handle (Pod.Namespace pod) (pods_on clusterNode) with
      | None => (0, Some framework.Error)
      | Some items =>
          nodes_loop handle pod node rest
                     (pods_loop pod node clusterNode items score)
      end
  end.

Definition Score (handle : Handle) (pod : Pod.t) (nodeName : string)
  : Z * option framework.Code :=
  match NodeInfos_Get handle nodeName with
  | None => (0, Some framework.Error)
  | Some node =>
      match NodeInfos_List handle with
      | None => (0, Some framework.Error)
      | Some clusterNodes => nodes_loop handle pod node clusterNodes 0
      end
  end.

End Plugin.
End NetworkAware.

(** ** An environment to run the code in

    The conversion of amd64 (every unrepresentable value gives [MinInt64]),
    the visiting order of [map_to_list], and the decimal part of
    [strconv.ParseFloat]: an optional sign, then ["inf"], ["infinity"]
    (["nan"] without sign), or decimal digits with an optional point and an
    optional decimal exponent, rounded to nearest even.  Hexadecimal
    literals and underscores between digits, which Go accepts as well, are
    reported here as syntax errors; none of the examples uses them. *)

Module Example_env.

Definition lower (c : ascii) : ascii :=
  let n := N_of_ascii c in
  if ((65 <=? n) && (n <=? 90))%N then ascii_of_N (n + 32) else c.

Fixpoint lower_string (s : string) : string :=
  match s with
  | EmptyString => EmptyString
  | String c r => String (lower c) (lower_string r)
  end.

(** Reads leading digits: the value accumulated on [acc], the number of
    digits read, and the rest of the string. *)
Fixpoint read_digits (s : string) (acc count : Z) : Z * Z * string :=
  match s with
  | EmptyString => (acc, count, s)
  | String c r =>
      match strconv.digit_of c with
      | Some d => read_digits r (acc * 10 + d) (count + 1)
      | None => (acc, count, s)
      end
  end.

(** The same for the exponent, which Go stops accumulating at 10000. *)
Fixpoint read_exponent (s : string) (e count : Z) : Z * Z * string :=
  match s with
  | EmptyString => (e, count, s)
  | String c r =>
      match strconv.digit_of c with
      | Some d => read_exponent r (if e <? 10000 then e * 10 + d else e)
                                (count + 1)
      | None => (e, count, s)
      end
  end.

(** An unsigned decimal literal as (mantissa, power of ten). *)
Definition read_decimal (s : string) : option (Z * Z) :=
  let '(int_part, int_digits, after_int) := read_digits s 0 0 in
  let '(mantissa, frac_digits, after_frac) :=
    match after_int with
    | String "." r => read_digits r int_part 0
    | _ => (int_part, 0, after_int)
    end in
  if int_digits + frac_digits =? 0 then None
  else
    match after_frac with
    | EmptyString => Some (mantissa, - frac_digits)
    | String c after_e =>
        if Ascii.eqb (lower c) "e" then
          let '(negative, digits) := strconv.split_sign after_e in
          let '(e, e_digits, rest) := read_exponent digits 0 0 in
          if e_digits =? 0 then None
          else
            match rest with
            | EmptyString =>
                Some (mantissa, (if negative then - e else e) - frac_digits)
            | _ => None
            end
        else None
    end.

Definition ParseFloat_decimal (s : string) : float64 * option NumError :=
  let '(negative, body) := strconv.split_sign s in
  if String.eqb (lower_string body) "inf"
     || String.eqb (lower_string body) "infinity"
  then (S754_infinity negative, None)
  else if String.eqb (lower_string s) "nan" then (S754_nan, None)
  else
    match read_decimal body with
    | None => (Float64.zero, Some ErrSyntax)
    | Some (mantissa, e10) =>
        let x :=
          if 0 <=? e10
          then Float64.round_ratio negative (mantissa * 10 ^ e10) 1
          else Float64.round_ratio negative mantissa (10 ^ (- e10)) in
        (x, if Float64.is_infinity x then Some ErrRange else None)
    end.

Definition env : GoEnv := {|
  ParseFloat := ParseFloat_decimal;
  int64_unrepresentable := fun _ => Int64.MinInt64;
  range_order := map_to_list;
|}.

(** The same environment with the maps visited in the opposite order. *)
Definition env_reversed : GoEnv := {|
  ParseFloat := ParseFloat_decimal;
  int64_unrepresentable := fun _ => Int64.MinInt64;
  range_order := fun m => rev (map_to_list m);
|}.

End Example_env.

(** ** Vocabulary of the properties *)

Section Vocabulary.
Context `{E : GoEnv}.

(** The pod without the label [key]. *)
Definition without_label (key : string) (pod : Pod.t) : Pod.t :=
  {| Pod.Name := Pod.Name pod;
     Pod.Namespace := Pod.Namespace pod;
     Pod.Labels := delete key (Pod.Labels pod);
     Pod.Annotations := Pod.Annotations pod;
     Pod.OwnerReferences := Pod.OwnerReferences pod;
     Pod.Spec_NodeName := Pod.Spec_NodeName pod |}.

(** The stage index of a pod on a stage key, as the admission gate reads
    it. *)
Definition stage_index (pod : Pod.t) (key : string) : option Z :=
  if sophos.is_chain_key key
  then Pod.Labels pod !! key ≫= strconv.Atoi
  else None.

(** The stage index of a pod on a stage key, as the neighbour check reads
    it, when the value parses. *)
Definition stage_value (pod : Pod.t) (key : string) : option float64 :=
  if sophos.is_chain_key key then
    match Pod.Labels pod !! key with
    | Some value =>
        match ParseFloat value with
        | (index, None) => Some index
        | (_, Some _) => None
        end
    | None => None
    end
  else None.

Definition same_group (pod peerPod : Pod.t) : Prop :=
  exists g, Pod.Labels pod !! "app-group" = Some g
            /\ Pod.Labels peerPod !! "app-group" = Some g.

(** [|x - y| = 1] exactly, in binary64. *)
Definition differ_by_exactly_one (x y : float64) : bool :=
  SFeqb (Float64.Abs (Float64.sub x y)) (Float64.of_Z 1).

(** A pod of the store that the listing of [AreLesserOrderPodsScheduled]
    finds for [pod], [key] and [index]: same namespace, same group, and the
    decimal numeral of [index - 1] as the value of [key]. *)
Definition lesser_order_pod (pod : Pod.t) (appGroup key : string) (index : Z)
           (q : Pod.t) : Prop :=
  Pod.Namespace q = Pod.Namespace pod
  /\ Pod.Labels q !! "app-group" = Some appGroup
  /\ Pod.Labels q !! key = Some (strconv.Itoa (index - 1)).

(** The entry [key := value] of the labels of [pod] lets the pod through:
    the value is a decimal integer, and when it is greater than 0 the store
    holds a pod one stage before, and every such pod is bound. *)
Definition stage_ready (store : list Pod.t) (pod : Pod.t)
           (appGroup key value : string) : Prop :=
  exists index,
    strconv.Atoi value = Some index
    /\ (0 < index ->
        (exists q, q ∈ store /\ lesser_order_pod pod appGroup key index q)
        /\ (forall q, q ∈ store ->
                      lesser_order_pod pod appGroup key index q ->
                      Pod.Spec_NodeName q <> "")).

(** *** The shared SLO budgets in the words of the specification

    For every stage key on which the two pods are neighbours, the SLO
    budget of the first pod for that key; a key whose budget is missing or
    does not parse is dropped and the other keys are kept. *)
Definition slo_of_key (pod peerPod : Pod.t) (kv : string * string)
  : list float64 :=
  let '(key, _) := kv in
  match stage_value pod key, stage_value peerPod key with
  | Some index, Some peerIndex =>
      if sophos.one_apart index peerIndex then
        match Pod.Annotations pod !! String.append key "-slo" with
        | Some annotation =>
            match ParseFloat annotation with
            | (chainSlo, None) => [chainSlo]
            | (_, Some _) => []
            end
        | None => []
        end
      else []
  | _, _ => []
  end.

Definition sharedSlos_spec (pod peerPod : Pod.t) : list float64 :=
  match Pod.Labels pod !! "app-group", Pod.Labels peerPod !! "app-group" with
  | Some g, Some g' =>
      if String.eqb g g'
      then concat (map (slo_of_key pod peerPod) (range_order (Pod.Labels pod)))
      else []
  | _, _ => []
  end.

(** *** Where the loop of [GetSharedChainsSlos] returns

    [stops kv]: the loop returns when it visits the entry [kv], because the
    stage value of the pod does not parse, or because the key is a
    neighbouring one whose SLO annotation is missing or does not parse. *)
Definition stops (pod peerPod : Pod.t) (kv : string * string) : bool :=
  let '(key, value) := kv in
  sophos.is_chain_key key &&
  match ParseFloat value with
  | (_, Some _) => true
  | (index, None) =>
      match Pod.Labels peerPod !! key with
      | Some peerValue =>
          sophos.one_apart index (ParseFloat peerValue).1 &&
          match Pod.Annotations pod !! String.append key "-slo" with
          | None => true
          | Some annotation =>
              match ParseFloat annotation with
              | (_, Some _) => true
              | (_, None) => false
              end
          end
      | None => false
      end
  end.

(** The entries visited before the first one that stops the loop. *)
Fixpoint before_stop (pod peerPod : Pod.t) (visit : list (string * string))
  : list (string * string) :=
  match visit with
  | [] => []
  | kv :: rest =>
      if stops pod peerPod kv then [] else kv :: before_stop pod peerPod rest
  end.

(** *** The loops, entry by entry *)

(** What one turn of the loop of [AreLesserOrderPodsScheduled] requires of
    the entry it visits. *)
Definition lesser_order_ok (handle : Handle) (namespace appGroup : string)
           (kv : string * string) : bool :=
  let '(key, value) := kv in
  if sophos.is_chain_key key then
    match strconv.Atoi value with
    | None => false
    | Some index =>
        if 0 <? index then
          match Pods_List handle namespace
                          (sophos.lesser_order_selector appGroup key index) with
          | None => false
          | Some [] => false
          | Some items => sophos.all_bound items
          end
        else true
    end
  else true.

(** The entry on which the loop of [ArePodsNeighbors] returns [true]. *)
Definition neighbors_on (peerPod : Pod.t) (kv : string * string) : bool :=
  let '(key, value) := kv in
  sophos.is_chain_key key &&
  match Pod.Labels peerPod !! key with
  | Some peerValue =>
      sophos.one_apart (ParseFloat value).1 (ParseFloat peerValue).1
  | None => false
  end.

(** The pods share a stage key on which the values that [ParseFloat]
    returns are one apart. *)
Definition share_adjacent_key (pod peerPod : Pod.t) : Prop :=
  exists key value peerValue,
    sophos.is_chain_key key = true
    /\ Pod.Labels pod !! key = Some value
    /\ Pod.Labels peerPod !! key = Some peerValue
    /\ sophos.one_apart (ParseFloat value).1 (ParseFloat peerValue).1 = true.

(** *** The hops of the owner traversal

    The traversal pod, replica set, deployment fails when the first owner
    of the pod is missing or is not a replica set, when the replica set
    cannot be fetched, when it has no owner, or when the deployment cannot
    be fetched. *)
Inductive traversal_fails (handle : Handle) (pod : Pod.t) : Prop :=
| no_owner :
    Pod.OwnerReferences pod = [] -> traversal_fails handle pod
| owner_not_replica_set owner others :
    Pod.OwnerReferences pod = owner :: others ->
    OwnerReference.Kind owner <> "ReplicaSet" ->
    traversal_fails handle pod
| replica_set_not_fetched owner others :
    Pod.OwnerReferences pod = owner :: others ->
    ReplicaSets_Get handle (Pod.Namespace pod) (OwnerReference.Name owner)
    = None ->
    traversal_fails handle pod
| replica_set_without_owner owner others replicaSet :
    Pod.OwnerReferences pod = owner :: others ->
    ReplicaSets_Get handle (Pod.Namespace pod) (OwnerReference.Name owner)
    = Some replicaSet ->
    ReplicaSet.OwnerReferences replicaSet = [] ->
    traversal_fails handle pod
| deployment_not_fetched owner others replicaSet rsOwner rsOthers :
    Pod.OwnerReferences pod = owner :: others ->
    ReplicaSets_Get handle (Pod.Namespace pod) (OwnerReference.Name owner)
    = Some replicaSet ->
    ReplicaSet.OwnerReferences replicaSet = rsOwner :: rsOthers ->
    Deployments_Get handle (ReplicaSet.Namespace replicaSet)
                    (OwnerReference.Name rsOwner) = None ->
    traversal_fails handle pod.




End Vocabulary.

(** *** Lowest and highest of a list of scores *)

Definition raw_scores (scores : list NodeScore.t) : list Z :=
  map NodeScore.Score scores.

Definition lowest_of (l : list Z) : Z :=
  match l with
  | [] => 0
  | x :: rest => foldr Z.min x rest
  end.

Definition highest_of (l : list Z) : Z :=
  match l with
  | [] => 0
  | x :: rest => foldr Z.max x rest
  end.

(** The affine map of the normaliser over the mathematical integers, with the
    division that truncates toward zero. *)
Definition affine (lowest highest rangeMin rangeMax raw : Z) : Z :=
  if lowest =? highest then rangeMin
  else Z.quot ((raw - lowest) * (rangeMax - rangeMin)) (highest - lowest)
       + rangeMin.

Definition normalized (scores : list NodeScore.t) : list NodeScore.t :=
  let lowest := lowest_of (raw_scores scores) in
  let highest := highest_of (raw_scores scores) in
  map (fun nodeScore =>
         {| NodeScore.Name := NodeScore.Name nodeScore;
            NodeScore.Score :=
              affine lowest highest framework.MinNodeScore
                     framework.MaxNodeScore (NodeScore.Score nodeScore) |})
      scores.

(** The largest spread of raw scores whose product with the width of the
    target range fits in an [int64]. *)
Definition max_spread : Z := Z.quot Int64.MaxInt64 100.

(** ** Concrete pods and clusters *)

Module Examples.

Definition labelled (name : string) (labels annotations : gmap string string)
           (owners : list OwnerReference.t) (nodeName : string) : Pod.t :=
  {| Pod.Name := name; Pod.Namespace := "default";
     Pod.Labels := labels; Pod.Annotations := annotations;
     Pod.OwnerReferences := owners; Pod.Spec_NodeName := nodeName |}.

Definition cluster_of (store : list Pod.t) : Cluster.t :=
  {| Cluster.pods := store; Cluster.replicaSets := [];
     Cluster.deployments := []; Cluster.nodes := [] |}.

(** Scenario 2 of the specification: [W1] at stage 1, [W0] at stage 0 of the
    same group and bound to a node. *)
Definition W1 : Pod.t :=
  labelled "w1" {[ "app-group" := "g"; "chain-pipe" := "1" ]} ∅ [] "".
Definition W0 : Pod.t :=
  labelled "w0" {[ "app-group" := "g"; "chain-pipe" := "0" ]} ∅ [] "n1".

(** Scenario 1 of the specification: [W2] at stage 2, and no workload at
    stage 1. *)
Definition W2 : Pod.t :=
  labelled "w2" {[ "app-group" := "g"; "chain-pipe" := "2" ]} ∅ [] "".

(** Stage 1 on one key with its predecessor bound, and a second stage key
    whose value is not a number. *)
Definition W1x : Pod.t :=
  labelled "w1x"
           {[ "app-group" := "g"; "chain-a" := "1"; "chain-b" := "x" ]} ∅ [] "".
Definition W0a : Pod.t :=
  labelled "w0a" {[ "app-group" := "g"; "chain-a" := "0" ]} ∅ [] "n1".

(** No label at all. *)
Definition bare : Pod.t := labelled "bare" ∅ ∅ [] "".

(** One stage key whose value is not a number, and a peer at stage 1. *)
Definition Wx : Pod.t :=
  labelled "wx" {[ "app-group" := "g"; "chain-a" := "x" ]} ∅ [] "".
Definition P1 : Pod.t :=
  labelled "p1" {[ "app-group" := "g"; "chain-a" := "1" ]} ∅ [] "n1".

(** A fractional stage value. *)
Definition Whalf : Pod.t :=
  labelled "whalf" {[ "app-group" := "g"; "chain-a" := "2.5" ]} ∅ [] "".

(** No owner, and usage annotations on the pod itself. *)
Definition orphan : Pod.t :=
  labelled "orphan" {[ "app-group" := "g" ]}
           {[ "cpu-usage" := "5"; "memory-usage" := "7" ]} [] "".

(** Two neighbouring stage keys, only the second with an SLO budget. *)
Definition A2 : Pod.t :=
  labelled "a2"
           {[ "app-group" := "g"; "chain-a" := "1"; "chain-b" := "1" ]}
           {[ "chain-b-slo" := "20" ]} [] "".
Definition B2 : Pod.t :=
  labelled "b2"
           {[ "app-group" := "g"; "chain-a" := "0"; "chain-b" := "0" ]}
           ∅ [] "n2".

(** Scenario 4 of the specification: SLO budget 20, request rate 50,
    latency 10 between the candidate node [n1] and the node [n2] of the
    peer. *)
Definition A : Pod.t :=
  labelled "a" {[ "app-group" := "g"; "app" := "a"; "chain-pipe" := "1" ]}
           {[ "chain-pipe-slo" := "20"; "rps.b" := "50" ]}
           [ {| OwnerReference.Kind := "ReplicaSet";
                OwnerReference.Name := "a-rs" |} ] "".
Definition B : Pod.t :=
  labelled "b" {[ "app-group" := "g"; "app" := "b"; "chain-pipe" := "0" ]}
           ∅ [] "n2".
Definition N1 : NodeInfo.t :=
  {| NodeInfo.Node := {| Node.Name := "n1";
                         Node.Annotations := {[ "network-latency.n2" := "10" ]} |};
     NodeInfo.Allocatable_MilliCPU := 4000;
     NodeInfo.Allocatable_Memory := 8000 |}.
Definition N2 : NodeInfo.t :=
  {| NodeInfo.Node := {| Node.Name := "n2"; Node.Annotations := ∅ |};
     NodeInfo.Allocatable_MilliCPU := 4000;
     NodeInfo.Allocatable_Memory := 8000 |}.
Definition scenario4 : Cluster.t :=
  {| Cluster.pods := [A; B];
     Cluster.replicaSets :=
       [ {| ReplicaSet.Name := "a-rs"; ReplicaSet.Namespace := "default";
            ReplicaSet.OwnerReferences :=
              [ {| OwnerReference.Kind := "Deployment";
                   OwnerReference.Name := "a-dep" |} ] |} ];
     Cluster.deployments :=
       [ {| Deployment.Name := "a-dep"; Deployment.Namespace := "default";
            Deployment.Annotations := ∅ |} ];
     Cluster.nodes := [N1; N2] |}.

Definition scored (name : string) (score : Z) : NodeScore.t :=
  {| NodeScore.Name := name; NodeScore.Score := score |}.

(** Scenario 5 of the specification. *)
Definition scenario5 : list NodeScore.t :=
  [scored "n1" 10; scored "n2" 20; scored "n3" 30].

(** Two raw scores whose spread, multiplied by 100, leaves [int64]. *)
Definition far_apart : list NodeScore.t :=
  [scored "n1" 0; scored "n2" (10 ^ 17)].

End Examples.

(** ** The properties as the specification words them

    Each definition below is one sentence of the specification, stated over
    the code; whether it holds is settled in the second part. *)

Section Claimed.
Context `{E : GoEnv}.

(** A workload of the same pipeline group whose index on [key] is exactly
    one less than [index]. *)
Definition predecessor (store : list Pod.t) (appGroup key : string)
           (index : Z) (q : Pod.t) : Prop :=
  q ∈ store
  /\ Pod.Labels q !! "app-group" = Some appGroup
  /\ stage_index q key = Some (index - 1).

Definition bound (q : Pod.t) : Prop := Pod.Spec_NodeName q <> "".

Definition claimed_admission : Prop :=
  forall handle store pod appGroup,
    serves_pods handle store ->
    Pod.Labels pod !! "app-group" = Some appGroup ->
    (exists key index, stage_index pod key = Some index /\ 0 < index) ->
    (sophos.AreLesserOrderPodsScheduled handle pod = true
     <-> forall key index,
           stage_index pod key = Some index -> 0 < index ->
           (exists q, predecessor store appGroup key index q)
           /\ (forall q, predecessor store appGroup key index q -> bound q)).

Definition claimed_ready_at_stage_zero : Prop :=
  forall handle pod,
    (forall key, sophos.is_chain_key key = true ->
                 Pod.Labels pod !! key = None)
    \/ (forall key, sophos.is_chain_key key = true ->
                    is_Some (Pod.Labels pod !! key) ->
                    stage_index pod key = Some 0) ->
    sophos.AreLesserOrderPodsScheduled handle pod = true.

Definition claimed_not_participating : Prop :=
  forall handle pod peerPod key value,
    Pod.Labels pod !! key = Some value ->
    sophos.is_chain_key key = true ->
    strconv.Atoi value = None ->
    (ParseFloat value).2 <> None ->
    sophos.AreLesserOrderPodsScheduled handle pod
    = sophos.AreLesserOrderPodsScheduled handle (without_label key pod)
    /\ sophos.ArePodsNeighbors pod peerPod
       = sophos.ArePodsNeighbors (without_label key pod) peerPod.

Definition claimed_usage_fallback : Prop :=
  forall handle pod,
    sophos.GetOwnerDeployment handle pod = None ->
    sophos.GetAppCpuUsage handle pod
    = sophos_pod_annotations.GetAppCpuUsage pod
    /\ sophos.GetAppMemoryUsage handle pod
       = sophos_pod_annotations.GetAppMemoryUsage pod.

Definition claimed_shared_slos : Prop :=
  forall pod peerPod,
    (same_group pod peerPod ->
     sophos.GetSharedChainsSlos pod peerPod = sharedSlos_spec pod peerPod)
    /\ (Pod.Labels pod !! "app-group" = None
        \/ Pod.Labels peerPod !! "app-group" = None ->
        sophos.GetSharedChainsSlos pod peerPod = []).

Definition claimed_neighbors_iff : Prop :=
  forall pod peerPod,
    sophos.ArePodsNeighbors pod peerPod = true
    <-> same_group pod peerPod
        /\ exists key x y,
             stage_value pod key = Some x
             /\ stage_value peerPod key = Some y
             /\ differ_by_exactly_one x y = true.

End Claimed.

Definition in_score_range (nodeScore : NodeScore.t) : Prop :=
  framework.MinNodeScore <= NodeScore.Score nodeScore <= framework.MaxNodeScore.

Definition claimed_normalize : Prop :=
  forall scores,
    scores <> [] ->
    Forall Int64.in_range (raw_scores scores) ->
    (NormalizeScore scores).1 = normalized scores.

Definition claimed_normalize_bounded : Prop :=
  forall scores,
    scores <> [] ->
    Forall Int64.in_range (raw_scores scores) ->
    (NormalizeScore scores).2 = None
    /\ Forall in_score_range (NormalizeScore scores).1.

(** ** The SLO cost, as the specification words it *)

Section SloCostVocabulary.
Context `{E : GoEnv}.

(** [readNumeric] of the specification with the default of every scorer: the
    number that the metadata hold under [key], and 0.0 when the key is absent
    or its value is not a number. *)
Definition readNumeric (metadata : gmap string string) (key : string)
  : float64 :=
  match metadata !! key with
  | Some text =>
      match ParseFloat text with
      | (value, None) => value
      | (_, Some _) => Float64.zero
      end
  | None => Float64.zero
  end.

(** [latency(n, p)] of the specification: the entry of the latency table of
    node [n] for the identity of node [p], under the key
    [network-latency.<peerNodeId>]. *)
Definition latency_spec (n p : NodeInfo.t) : float64 :=
  readNumeric (Node.Annotations (NodeInfo.Node n))
              (String.append "network-latency." (Node.Name (NodeInfo.Node p))).

(** [requestsPerSecond(w, peer)] for two neighbours: the entry
    [rps.<peerApp>] of the workload, where [peerApp] is the [app] label of
    the peer; 0.0 when the peer has no such label or when the owner traversal
    of the workload fails. *)
Definition requestsPerSecond_spec (handle : Handle) (w peer : Pod.t)
  : float64 :=
  match Pod.Labels peer !! "app", sophos.GetOwnerDeployment handle w with
  | Some peerApp, Some _ =>
      readNumeric (Pod.Annotations w) (String.append "rps." peerApp)
  | _, _ => Float64.zero
  end.

(** The workloads bound to node [p], in every namespace and in the namespace
    of [w]. *)
Definition bound_to (store : list Pod.t) (p : NodeInfo.t) : list Pod.t :=
  List.filter
    (fun peer =>
       String.eqb (Pod.Spec_NodeName peer) (Node.Name (NodeInfo.Node p)))
    store.

Definition peers_on (store : list Pod.t) (w : Pod.t) (p : NodeInfo.t)
  : list Pod.t :=
  List.filter
    (fun peer => String.eqb (Pod.Namespace peer) (Pod.Namespace w))
    (bound_to store p).

(** [latency * (requestsPerSecond + 100) / sloBudget], in binary64. *)
Definition exact_term (l rps slo : float64) : float64 :=
  Float64.div (Float64.mul l (Float64.add rps (Float64.of_Z 100))) slo.

(** The terms of one peer: one per shared SLO budget when the peer is a
    neighbour, none otherwise. *)
Definition exact_terms (handle : Handle) (w : Pod.t) (n p : NodeInfo.t)
           (peer : Pod.t) : list float64 :=
  if sophos.ArePodsNeighbors w peer then
    map (exact_term (latency_spec n p) (requestsPerSecond_spec handle w peer))
        (sophos.GetSharedChainsSlos w peer)
  else [].

(** The double enumeration: every node of the cluster, every workload that
    [pods_of] finds on it. *)
Definition all_terms (handle : Handle) (w : Pod.t) (n : NodeInfo.t)
           (pods_of : NodeInfo.t -> list Pod.t) (nodes : list NodeInfo.t)
  : list float64 :=
  flat_map (fun p => flat_map (exact_terms handle w n p) (pods_of p)) nodes.

(** The terms that [Score] subtracts: those of the peers in the namespace of
    the workload, each converted to [int64]. *)
Definition slo_terms (handle : Handle) (store : list Pod.t) (w : Pod.t)
           (n : NodeInfo.t) (nodes : list NodeInfo.t) : list Z :=
  map int64_of_float64 (all_terms handle w n (peers_on store w) nodes).


End SloCostVocabulary.

(** Scenario 4 with SLO budget 3 and no request rate: the term is
    [10 * (0 + 100) / 3], which is not an integer. *)
Definition A3 : Pod.t :=
  Examples.labelled
    "a" {[ "app-group" := "g"; "app" := "a"; "chain-pipe" := "1" ]}
    {[ "chain-pipe-slo" := "3" ]}
    [ {| OwnerReference.Kind := "ReplicaSet";
         OwnerReference.Name := "a-rs" |} ] "".

Definition scenario4_fraction : Cluster.t :=
  {| Cluster.pods := [A3; Examples.B];
     Cluster.replicaSets := Cluster.replicaSets Examples.scenario4;
     Cluster.deployments := Cluster.deployments Examples.scenario4;
     Cluster.nodes := [Examples.N1; Examples.N2] |}.

(** ** Further vocabulary and examples *)

(** A handle none of whose requests is answered. *)
Definition unreachable : Handle := {|
  Pods_List _ _ := None;
  ReplicaSets_Get _ _ := None;
  Deployments_Get _ _ := None;
  NodeInfos_Get _ := None;
  NodeInfos_List := None;
|}.

(** The pod with other labels and annotations. *)
Definition with_metadata (labels annotations : gmap string string)
           (pod : Pod.t) : Pod.t :=
  {| Pod.Name := Pod.Name pod;
     Pod.Namespace := Pod.Namespace pod;
     Pod.Labels := labels;
     Pod.Annotations := annotations;
     Pod.OwnerReferences := Pod.OwnerReferences pod;
     Pod.Spec_NodeName := Pod.Spec_NodeName pod |}.

(** A float that has no integer part: NaN or an infinity. *)
Definition not_finite (x : float64) : Prop := Float64.trunc x = None.

(** A float that is a number: zero or finite. *)
Definition is_number (x : float64) : bool :=
  match x with
  | S754_zero _ | S754_finite _ _ _ => true
  | S754_infinity _ | S754_nan => false
  end.



(** A node without allocatable CPU, alone in its cluster. *)
Definition N0 : NodeInfo.t :=
  {| NodeInfo.Node := {| Node.Name := "n0"; Node.Annotations := ∅ |};
     NodeInfo.Allocatable_MilliCPU := 0;
     NodeInfo.Allocatable_Memory := 8000 |}.

Definition empty_node_cluster : Cluster.t :=
  {| Cluster.pods := []; Cluster.replicaSets := [];
     Cluster.deployments := []; Cluster.nodes := [N0] |}.

(** * Properties *)

(** ** The example environments visit every entry once *)

Lemma Example_env_ok : GoEnvOK Example_env.env.
Proof. constructor. intros m. reflexivity. Qed.

Lemma Example_env_reversed_ok : GoEnvOK Example_env.env_reversed.
Proof.
  constructor. intros m. cbn. symmetry. apply Permutation_rev.
Qed.

(** ** Loops over a map do not depend on the visiting order *)

Section Range.
Context `{OK : GoEnvOK}.

Lemma range_order_elem (m : gmap string string) (k v : string) :
  (k, v) ∈ range_order m <-> m !! k = Some v.
Proof.
  rewrite (range_order_perm m). apply elem_of_map_to_list.
Qed.

Lemma forallb_range (f : string * string -> bool) (m : gmap string string) :
  forallb f (range_order m) = true
  <-> forall k v, m !! k = Some v -> f (k, v) = true.
Proof.
  rewrite forallb_forall. split.
  - intros H k v Hkv. apply H, list_elem_of_In, range_order_elem, Hkv.
  - intros H [k v] Hin. apply H, range_order_elem, list_elem_of_In, Hin.
Qed.

Lemma existsb_range (f : string * string -> bool) (m : gmap string string) :
  existsb f (range_order m) = true
  <-> exists k v, m !! k = Some v /\ f (k, v) = true.
Proof.
  rewrite existsb_exists. split.
  - intros [[k v] [Hin Hf]]. exists k, v. split; [|exact Hf].
    apply range_order_elem, list_elem_of_In, Hin.
  - intros (k & v & Hkv & Hf). exists (k, v). split; [|exact Hf].
    apply list_elem_of_In, range_order_elem, Hkv.
Qed.

End Range.

(** ** The admission gate *)

Section Admission.
Context `{E : GoEnv}.

Lemma lesser_order_loop_forallb handle namespace appGroup visit :
  sophos.lesser_order_loop handle namespace appGroup visit
  = forallb (lesser_order_ok handle namespace appGroup) visit.
Proof.
  induction visit as [|[key value] rest IH]; [reflexivity|].
  cbn [sophos.lesser_order_loop forallb lesser_order_ok].
  destruct (sophos.is_chain_key key); [|exact IH].
  destruct (strconv.Atoi value) as [index|]; [|reflexivity].
  destruct (0 <? index); [|exact IH].
  destruct (Pods_List _ _ _) as [[|q items]|]; try reflexivity.
  destruct (sophos.all_bound (q :: items)); [exact IH|reflexivity].
Qed.

Lemma all_bound_spec items :
  sophos.all_bound items = true
  <-> forall q, q ∈ items -> Pod.Spec_NodeName q <> "".
Proof.
  induction items as [|p items IH]; cbn [sophos.all_bound].
  - split; [|reflexivity]. intros _ q Hq. inversion Hq.
  - destruct (String.eqb_spec (Pod.Spec_NodeName p) "") as [Heq|Hne].
    + split; [discriminate|]. intros H. exfalso. apply (H p); [left|exact Heq].
    + rewrite IH. split.
      * intros H q Hq. apply elem_of_cons in Hq as [->|Hq]; auto.
      * intros H q Hq. apply H. right. exact Hq.
Qed.

Lemma chain_key_not_group key :
  sophos.is_chain_key key = true -> key <> "app-group".
Proof. intros H ->. discriminate H. Qed.

Lemma has_labels_spec sel p :
  Cluster.has_labels sel p = true
  <-> forall k v, sel !! k = Some v -> Pod.Labels p !! k = Some v.
Proof.
  unfold Cluster.has_labels. rewrite forallb_forall. split.
  - intros H k v Hkv.
    specialize (H (k, v)). cbn in H. rewrite bool_decide_eq_true in H.
    apply H, list_elem_of_In, elem_of_map_to_list, Hkv.
  - intros H [k v] Hin. cbn. rewrite bool_decide_eq_true.
    apply H, elem_of_map_to_list, list_elem_of_In, Hin.
Qed.

Lemma selected_lesser_order pod appGroup key index q :
  sophos.is_chain_key key = true ->
  Cluster.selected (Pod.Namespace pod)
                   (sophos.lesser_order_selector appGroup key index) q = true
  <-> lesser_order_pod pod appGroup key index q.
Proof.
  intros Hkey. pose proof (chain_key_not_group key Hkey) as Hne.
  unfold Cluster.selected, lesser_order_pod, sophos.lesser_order_selector.
  cbn [ListOptions.LabelSelector ListOptions.FieldSelector_nodeName
       Cluster.on_node].
  rewrite andb_true_r, andb_true_iff, String.eqb_eq, has_labels_spec.
  split.
  - intros [Hns Hl]. split; [exact Hns|]. split; apply Hl.
    + apply lookup_insert_eq.
    + rewrite lookup_insert_ne by congruence. apply lookup_singleton_eq.
  - intros (Hns & Hg & Hk). split; [exact Hns|]. intros k v Hkv.
    destruct (decide (k = "app-group")) as [->|Hk1].
    + rewrite lookup_insert_eq in Hkv. congruence.
    + rewrite lookup_insert_ne in Hkv by congruence.
      apply lookup_singleton_Some in Hkv as [<- <-]. exact Hk.
Qed.

Lemma list_pods_lesser_order store pod appGroup key index q :
  sophos.is_chain_key key = true ->
  q ∈ Cluster.list_pods store (Pod.Namespace pod)
                        (sophos.lesser_order_selector appGroup key index)
  <-> q ∈ store /\ lesser_order_pod pod appGroup key index q.
Proof.
  intros Hkey. unfold Cluster.list_pods.
  rewrite list_elem_of_In, filter_In, <- list_elem_of_In.
  rewrite (selected_lesser_order pod appGroup key index q Hkey). reflexivity.
Qed.

End Admission.

Section AdmissionGate.
Context `{OK : GoEnvOK}.

Lemma lesser_order_ok_spec handle store pod appGroup key value :
  serves_pods handle store ->
  lesser_order_ok handle (Pod.Namespace pod) appGroup (key, value) = true
  <-> (sophos.is_chain_key key = true ->
       stage_ready store pod appGroup key value).
Proof.
  intros Hserves. unfold stage_ready. cbn [lesser_order_ok].
  destruct (sophos.is_chain_key key) eqn:Hkey;
    [|split; [discriminate|reflexivity]].
  destruct (strconv.Atoi value) as [index|];
    [|split; [discriminate|intros H; destruct (H eq_refl) as (? & ? & _); discriminate]].
  destruct (Z.ltb_spec 0 index) as [Hpos|Hle].
  - rewrite Hserves.
    pose proof (fun q => list_pods_lesser_order store pod appGroup key index q Hkey)
      as Hmem.
    destruct (Cluster.list_pods _ _ _) as [|q0 items] eqn:Hitems.
    + split; [discriminate|]. intros H.
      destruct (H eq_refl) as (i & Hi & Hall). injection Hi as <-.
      destruct (Hall Hpos) as [[q Hq] _]. apply Hmem in Hq. inversion Hq.
    + rewrite all_bound_spec. split.
      * intros Hb _. exists index. split; [reflexivity|]. intros _. split.
        -- exists q0. apply Hmem. left.
        -- intros q Hq Hl. apply Hb, Hmem. split; assumption.
      * intros H q Hq. destruct (H eq_refl) as (i & Hi & Hall).
        injection Hi as <-. destruct (Hall Hpos) as [_ Hb].
        apply Hmem in Hq as [Hq Hl]. apply Hb; assumption.
  - split; [|reflexivity]. intros _ _. exists index.
    split; [reflexivity|]. intros Hpos. lia.
Qed.

Lemma AreLesserOrderPodsScheduled_forall handle store pod appGroup :
  serves_pods handle store ->
  Pod.Labels pod !! "app-group" = Some appGroup ->
  sophos.AreLesserOrderPodsScheduled handle pod = true
  <-> forall key value,
        Pod.Labels pod !! key = Some value ->
        sophos.is_chain_key key = true ->
        stage_ready store pod appGroup key value.
Proof.
  intros Hserves Hgroup.
  unfold sophos.AreLesserOrderPodsScheduled. rewrite Hgroup.
  rewrite lesser_order_loop_forallb, forallb_range. split.
  - intros H key value Hkv.
    apply (lesser_order_ok_spec handle store pod appGroup key value Hserves).
    apply H, Hkv.
  - intros H key value Hkv.
    apply (lesser_order_ok_spec handle store pod appGroup key value Hserves).
    apply H, Hkv.
Qed.

(** C1, amended.  For a workload that carries the pipeline-group label, in
    a cluster whose pod listing answers: the admission check returns true
    iff every stage label value is a decimal integer and, for every stage
    key whose index is greater than 0, at least one workload of the same
    namespace and pipeline group carries the decimal numeral of the index
    minus one as the value of that key, and every such workload is bound to
    a node ([stage_ready]).  If for some stage key with index greater than 0
    the listing finds no such workload, or finds one that is unbound, the
    check returns false. *)
Theorem AreLesserOrderPodsScheduled_iff handle store pod appGroup :
  serves_pods handle store ->
  Pod.Labels pod !! "app-group" = Some appGroup ->
  (sophos.AreLesserOrderPodsScheduled handle pod = true
   <-> forall key value,
         Pod.Labels pod !! key = Some value ->
         sophos.is_chain_key key = true ->
         stage_ready store pod appGroup key value)
  /\ (forall key value index,
        Pod.Labels pod !! key = Some value ->
        sophos.is_chain_key key = true ->
        strconv.Atoi value = Some index ->
        0 < index ->
        (forall q, q ∈ store -> ~ lesser_order_pod pod appGroup key index q)
        \/ (exists q, q ∈ store
                      /\ lesser_order_pod pod appGroup key index q
                      /\ Pod.Spec_NodeName q = "") ->
        sophos.AreLesserOrderPodsScheduled handle pod = false).
Proof.
  intros Hserves Hgroup.
  pose proof (AreLesserOrderPodsScheduled_forall handle store pod appGroup
                Hserves Hgroup) as Hiff.
  split; [exact Hiff|].
  intros key value index Hkv Hkey Hatoi Hpos Hbad.
  apply not_true_is_false. intros Htrue.
  destruct (proj1 Hiff Htrue key value Hkv Hkey) as (i & Hi & Hall).
  rewrite Hatoi in Hi. injection Hi as <-.
  destruct (Hall Hpos) as [[q [Hq Hl]] Hb].
  destruct Hbad as [Hnone|(q' & Hq' & Hl' & Hunbound)].
  - exact (Hnone q Hq Hl).
  - exact (Hb q' Hq' Hl' Hunbound).
Qed.

(** C7, amended.  A workload that carries the pipeline-group label and has
    no stage key, or whose stage keys all carry index 0, passes the
    admission check, whatever the cluster answers. *)
Theorem AreLesserOrderPodsScheduled_stage_zero handle pod appGroup :
  Pod.Labels pod !! "app-group" = Some appGroup ->
  (forall key, sophos.is_chain_key key = true ->
               Pod.Labels pod !! key = None)
  \/ (forall key, sophos.is_chain_key key = true ->
                  is_Some (Pod.Labels pod !! key) ->
                  stage_index pod key = Some 0) ->
  sophos.AreLesserOrderPodsScheduled handle pod = true.
Proof.
  intros Hgroup Hstages.
  unfold sophos.AreLesserOrderPodsScheduled. rewrite Hgroup.
  rewrite lesser_order_loop_forallb, forallb_range.
  intros key value Hkv. cbn [lesser_order_ok].
  destruct (sophos.is_chain_key key) eqn:Hkey; [|reflexivity].
  destruct Hstages as [Hnone|Hzero].
  - rewrite (Hnone key Hkey) in Hkv. discriminate.
  - specialize (Hzero key Hkey (ex_intro _ value Hkv)).
    unfold stage_index in Hzero. rewrite Hkey, Hkv in Hzero.
    cbn in Hzero. rewrite Hzero. reflexivity.
Qed.

End AdmissionGate.

Import Examples.

Lemma cluster_serves_pods (c : Cluster.t) :
  serves_pods (Cluster.handle c) (Cluster.pods c).
Proof. intros ns opts. reflexivity. Qed.

Lemma AreLesserOrderPodsScheduled_iff_witness :
  serves_pods (Cluster.handle (cluster_of [W1; W0])) [W1; W0]
  /\ Pod.Labels W1 !! "app-group" = Some "g"
  /\ ((@sophos.AreLesserOrderPodsScheduled Example_env.env
         (Cluster.handle (cluster_of [W1; W0])) W1 = true
       <-> forall key value,
             Pod.Labels W1 !! key = Some value ->
             sophos.is_chain_key key = true ->
             stage_ready [W1; W0] W1 "g" key value)
      /\ (forall key value index,
            Pod.Labels W1 !! key = Some value ->
            sophos.is_chain_key key = true ->
            strconv.Atoi value = Some index ->
            0 < index ->
            (forall q, q ∈ [W1; W0] -> ~ lesser_order_pod W1 "g" key index q)
            \/ (exists q, q ∈ [W1; W0]
                          /\ lesser_order_pod W1 "g" key index q
                          /\ Pod.Spec_NodeName q = "") ->
            @sophos.AreLesserOrderPodsScheduled Example_env.env
              (Cluster.handle (cluster_of [W1; W0])) W1 = false)).
Proof.
  split; [intros ns opts; reflexivity|].
  split; [vm_compute; reflexivity|].
  apply (@AreLesserOrderPodsScheduled_iff Example_env.env Example_env_ok
           (Cluster.handle (cluster_of [W1; W0])) [W1; W0] W1 "g").
  - intros ns opts. reflexivity.
  - vm_compute. reflexivity.
Defined.

Lemma AreLesserOrderPodsScheduled_stage_zero_witness :
  Pod.Labels W0 !! "app-group" = Some "g"
  /\ @sophos.AreLesserOrderPodsScheduled Example_env.env
       (Cluster.handle (cluster_of [])) W0 = true.
Proof.
  split; [vm_compute; reflexivity|].
  apply (@AreLesserOrderPodsScheduled_stage_zero Example_env.env Example_env_ok
           (Cluster.handle (cluster_of [])) W0 "g").
  - vm_compute. reflexivity.
  - right. intros key Hkey [value Hkv]. unfold stage_index. rewrite Hkey, Hkv.
    cbn [W0 labelled Pod.Labels] in Hkv.
    apply lookup_insert_Some in Hkv as [[<- _]|[_ Hkv]]; [discriminate Hkey|].
    apply lookup_singleton_Some in Hkv as [_ <-]. reflexivity.
Defined.

(** Scenarios 1 and 2 of the specification, and a predecessor that is not
    bound yet. *)
Example AreLesserOrderPodsScheduled_scenarios :
  @sophos.AreLesserOrderPodsScheduled Example_env.env
    (Cluster.handle (cluster_of [W2; W0])) W2 = false
  /\ @sophos.AreLesserOrderPodsScheduled Example_env.env
       (Cluster.handle (cluster_of [W1; W0])) W1 = true
  /\ @sophos.AreLesserOrderPodsScheduled Example_env.env
       (Cluster.handle (cluster_of [W2; W1; W0])) W2 = false.
Proof. vm_compute. repeat split. Qed.

(** The labels of [W1x], entry by entry. *)
Lemma W1x_labels key value :
  Pod.Labels W1x !! key = Some value ->
  (key = "app-group" /\ value = "g")
  \/ (key = "chain-a" /\ value = "1")
  \/ (key = "chain-b" /\ value = "x").
Proof.
  cbn [W1x labelled Pod.Labels]. intros H.
  apply lookup_insert_Some in H as [[<- <-]|[_ H]]; [auto|].
  apply lookup_insert_Some in H as [[<- <-]|[_ H]]; [auto|].
  apply lookup_singleton_Some in H as [<- <-]. auto.
Qed.

(** C1 as stated fails: [W1x] is at stage 1 on [chain-a], its only
    predecessor [W0a] is bound, and no other stage key has an index; yet the
    check returns false, because the value of [chain-b] is not a number. *)
Lemma claimed_admission_fails : ~ @claimed_admission Example_env.env.
Proof.
  intros claim.
  specialize (claim (Cluster.handle (cluster_of [W1x; W0a])) [W1x; W0a] W1x "g"
                    (cluster_serves_pods (cluster_of [W1x; W0a])) eq_refl).
  assert (Hfalse : @sophos.AreLesserOrderPodsScheduled Example_env.env
                     (Cluster.handle (cluster_of [W1x; W0a])) W1x = false)
    by (vm_compute; reflexivity).
  rewrite Hfalse in claim.
  assert (Hstage : forall key index,
             stage_index W1x key = Some index -> key = "chain-a" /\ index = 1).
  { intros key index. unfold stage_index.
    destruct (sophos.is_chain_key key) eqn:Hkey; [|discriminate].
    destruct (Pod.Labels W1x !! key) as [value|] eqn:Hkv; [|discriminate].
    destruct (W1x_labels key value Hkv) as [[-> ->]|[[-> ->]|[-> ->]]];
      cbn; intros H; [discriminate Hkey| |discriminate H].
    injection H as <-. auto. }
  destruct claim as [_ claim].
  - exists "chain-a", 1. split; [vm_compute; reflexivity|lia].
  - discriminate claim.
    intros key index Hidx _. destruct (Hstage key index Hidx) as [-> ->].
    split.
    + exists W0a. split; [right; left|]. split; vm_compute; reflexivity.
    + intros q (Hq & _ & Hi).
      apply elem_of_cons in Hq as [->|Hq]; [vm_compute in Hi; discriminate Hi|].
      apply list_elem_of_singleton in Hq as ->. discriminate.
Qed.

(** C7 as stated fails: a workload with no label at all has no stage key,
    and the check returns false for want of the pipeline-group label. *)
Lemma claimed_ready_at_stage_zero_fails :
  ~ @claimed_ready_at_stage_zero Example_env.env.
Proof.
  intros claim.
  specialize (claim (Cluster.handle (cluster_of [])) bare).
  assert (Hfalse : @sophos.AreLesserOrderPodsScheduled Example_env.env
                     (Cluster.handle (cluster_of [])) bare = false)
    by (vm_compute; reflexivity).
  rewrite Hfalse in claim. discriminate claim.
  left. intros key _. apply lookup_empty.
Qed.

(** ** The neighbour relation *)

Section Float64Facts.

Lemma SFabs_binary_round s m e :
  SFabs (binary_round Float64.prec Float64.emax s m e)
  = SFabs (binary_round Float64.prec Float64.emax false m e).
Proof.
  unfold binary_round.
  destruct (shl_align _ _ _) as [mz ez].
  unfold binary_round_aux.
  destruct (shr_fexp _ _ _ _ _) as [mrs e1].
  destruct (shr_fexp _ _ _ _ _) as [mrs' e2].
  destruct (shr_m mrs'); [reflexivity| |reflexivity].
  destruct (e2 <=? _); reflexivity.
Qed.

Lemma SFabs_binary_normalize_opp m e :
  SFabs (binary_normalize Float64.prec Float64.emax (- m) e false)
  = SFabs (binary_normalize Float64.prec Float64.emax m e false).
Proof.
  destruct m as [|p|p]; [reflexivity| |]; cbn [Z.opp binary_normalize].
  - apply SFabs_binary_round.
  - symmetry. apply SFabs_binary_round.
Qed.

(** *** Small integers are exact

    An integer below [2^53] in magnitude is a binary64 number; the rounding
    of [binary_round] leaves it as it is, so the difference of two such
    floats is the float of the difference. *)

Lemma digits2_pos_size m : digits2_pos m = Pos.size m.
Proof. induction m; cbn; congruence. Qed.

Lemma digits2_pos_log2 m : Z.pos (digits2_pos m) = Z.log2 (Z.pos m) + 1.
Proof.
  rewrite digits2_pos_size. destruct m; cbn; try rewrite Pos2Z.inj_succ; try lia.
Qed.

Lemma shr_1_double k :
  shr_1 (Build_shr_record (2 * k) false false) = Build_shr_record k false false.
Proof. destruct k; reflexivity. Qed.

Lemma iter_shr_exact n k :
  SpecFloat.iter_pos shr_1 n (Build_shr_record (2 ^ Z.pos n * k) false false)
  = Build_shr_record k false false.
Proof.
  revert k. induction n as [n IH|n IH|]; intros k; cbn [SpecFloat.iter_pos].
  - replace (2 ^ Z.pos n~1 * k) with (2 * (2 ^ Z.pos n * (2 ^ Z.pos n * k))).
    + rewrite shr_1_double, IH, IH. reflexivity.
    + replace (Z.pos n~1) with (1 + Z.pos n + Z.pos n) by lia.
      rewrite !Z.pow_add_r by lia. lia.
  - replace (2 ^ Z.pos n~0 * k) with (2 ^ Z.pos n * (2 ^ Z.pos n * k)).
    + rewrite IH, IH. reflexivity.
    + replace (Z.pos n~0) with (Z.pos n + Z.pos n) by lia.
      rewrite !Z.pow_add_r by lia. lia.
  - apply shr_1_double.
Qed.

Lemma iter_xO m d : Z.pos (Pos.iter xO m d) = Z.pos m * 2 ^ Z.pos d.
Proof.
  rewrite (Pos.iter_swap_gen _ _ Z.pos xO (Z.mul 2)) by reflexivity.
  change (Pos.iter (Z.mul 2) (Z.pos m) d) with (Z.shiftl (Z.pos m) (Z.pos d)).
  apply Z.shiftl_mul_pow2. lia.
Qed.

Section Canonical.
Variable N : Z.
Hypothesis HN : 0 < N < 2 ^ 53.

Let t := Z.log2 N - 52.

Lemma log2_small : 0 <= Z.log2 N <= 52.
Proof.
  split; [apply Z.log2_nonneg|].
  assert (Z.log2 N < 53) by (apply Z.log2_lt_pow2; lia). lia.
Qed.

Lemma digits_scaled K k :
  0 <= k -> Z.pos K = N * 2 ^ k ->
  Z.pos (digits2_pos K) = Z.log2 N + k + 1.
Proof.
  intros Hk HK. rewrite digits2_pos_log2, HK, Z.log2_mul_pow2 by lia. lia.
Qed.

Lemma shr_fexp_canon K :
  Z.pos K = N * 2 ^ (- t) ->
  shr_fexp 53 1024 (Z.pos K) t loc_Exact
  = (Build_shr_record (Z.pos K) false false, t).
Proof.
  intros HK. pose proof log2_small as Hlog.
  unfold shr_fexp. cbn [Zdigits2].
  rewrite (digits_scaled K (- t)) by (unfold t; lia || exact HK).
  replace (fexp 53 1024 (Z.log2 N + - t + 1 + t) - t) with 0
    by (unfold fexp, emin, t; lia).
  reflexivity.
Qed.

Lemma binary_round_aux_canon s mx ex lx K :
  shr_fexp 53 1024 mx ex lx = (Build_shr_record (Z.pos K) false false, t) ->
  Z.pos K = N * 2 ^ (- t) ->
  binary_round_aux 53 1024 s mx ex lx = S754_finite s K t.
Proof.
  intros Hshr HK. pose proof log2_small as Hlog.
  unfold binary_round_aux. rewrite Hshr.
  cbn [shr_m loc_of_shr_record round_nearest_even].
  rewrite (shr_fexp_canon K HK). cbn [shr_m].
  destruct (Z.leb_spec t (1024 - 53)); [reflexivity|unfold t in *; lia].
Qed.

Lemma binary_round_integer s M e :
  e <= 0 -> Z.pos M = N * 2 ^ (- e) ->
  binary_round 53 1024 s M e
  = S754_finite s (Z.to_pos (N * 2 ^ (- t))) t.
Proof.
  intros He HM. pose proof log2_small as Hlog.
  assert (Hpos : 0 < N * 2 ^ (- t)) by (apply Z.mul_pos_pos; [lia|apply Z.pow_pos_nonneg; unfold t; lia]).
  assert (HK : Z.pos (Z.to_pos (N * 2 ^ (- t))) = N * 2 ^ (- t))
    by (apply Z2Pos.id; exact Hpos).
  unfold binary_round.
  rewrite (digits_scaled M (- e)) by (lia || exact HM).
  replace (fexp 53 1024 (Z.log2 N + - e + 1 + e)) with t
    by (unfold fexp, emin, t; lia).
  unfold shl_align. destruct (t - e) as [|p|p] eqn:Hd.
  - assert (e = t) as -> by lia.
    replace (Z.to_pos (N * 2 ^ (- t))) with M by lia.
    apply binary_round_aux_canon; [|exact HM]. apply shr_fexp_canon, HM.
  - apply binary_round_aux_canon; [|exact HK].
    unfold shr_fexp. cbn [Zdigits2].
    rewrite (digits_scaled M (- e)) by (lia || exact HM).
    replace (fexp 53 1024 (Z.log2 N + - e + 1 + e) - e) with (Z.pos p)
      by (unfold fexp, emin; fold t; lia).
    cbn [shr shr_record_of_loc].
    replace (Z.pos M) with (2 ^ Z.pos p * Z.pos (Z.to_pos (N * 2 ^ (- t)))).
    + rewrite iter_shr_exact. f_equal. lia.
    + rewrite HK, HM. replace (- e) with (Z.pos p + - t) by lia.
      rewrite Z.pow_add_r by (unfold t; lia). lia.
  - replace (Z.to_pos (N * 2 ^ (- t))) with (Pos.iter xO M p).
    + apply binary_round_aux_canon; [apply shr_fexp_canon|];
        rewrite iter_xO, HM; replace (- t) with (- e + Z.pos p) by lia;
        rewrite Z.pow_add_r by lia; lia.
    + apply Pos2Z.inj. rewrite HK, iter_xO, HM.
      replace (- t) with (- e + Z.pos p) by lia.
      rewrite Z.pow_add_r by lia. lia.
Qed.

End Canonical.

Lemma binary_round_integer' s M e N :
  0 < N < 2 ^ 53 -> e <= 0 -> Z.pos M = N * 2 ^ (- e) ->
  binary_round 53 1024 s M e = Float64.integer_float s N.
Proof.
  intros HN He HM. rewrite (binary_round_integer N HN s M e He HM).
  unfold Float64.integer_float. repeat f_equal; lia.
Qed.

Lemma of_Z_integer N :
  0 < N < 2 ^ 53 -> Float64.of_Z N = Float64.integer_float false N.
Proof.
  intros HN. unfold Float64.of_Z. destruct N as [|M|M]; try lia.
  cbn [binary_normalize]. apply binary_round_integer'; [exact HN|lia|].
  cbn. lia.
Qed.

Lemma integer_float_mantissa N :
  0 < N < 2 ^ 53 ->
  Z.pos (Z.to_pos (N * 2 ^ (52 - Z.log2 N))) = N * 2 ^ (52 - Z.log2 N)
  /\ 0 <= 52 - Z.log2 N.
Proof.
  intros HN. pose proof (log2_small N HN).
  split; [|lia]. apply Z2Pos.id. apply Z.mul_pos_pos; [lia|].
  apply Z.pow_pos_nonneg; lia.
Qed.

Lemma trunc_integer_float s N :
  0 < N < 2 ^ 53 ->
  Float64.trunc (Float64.integer_float s N) = Some (cond_Zopp s N).
Proof.
  intros HN. destruct (integer_float_mantissa N HN) as [Hm Hk].
  unfold Float64.trunc, Float64.integer_float. rewrite Hm. do 2 f_equal.
  replace (Z.log2 N - 52) with (- (52 - Z.log2 N)) by lia.
  rewrite Z.shiftl_opp_r, Z.shiftr_div_pow2 by lia.
  apply Z.div_mul. apply Z.pow_nonzero; lia.
Qed.

Lemma shl_align_value m e e' :
  e' <= e -> Z.pos (fst (shl_align m e e')) = Z.pos m * 2 ^ (e - e').
Proof.
  intros H. unfold shl_align. destruct (e' - e) as [|p|p] eqn:Hd; cbn [fst].
  - replace (e - e') with 0 by lia. lia.
  - lia.
  - rewrite iter_xO. f_equal. f_equal. lia.
Qed.

Lemma sub_integer_floats i j :
  0 < i < 2 ^ 53 -> 0 < j < 2 ^ 53 ->
  Float64.sub (Float64.integer_float false i) (Float64.integer_float false j)
  = if i =? j then S754_zero false
    else Float64.integer_float (i <? j) (Z.abs (i - j)).
Proof.
  intros Hi Hj.
  destruct (integer_float_mantissa i Hi) as [Hmi Hki].
  destruct (integer_float_mantissa j Hj) as [Hmj Hkj].
  unfold Float64.sub, Float64.integer_float. cbn [SFsub cond_Zopp].
  set (ei := Z.log2 i - 52). set (ej := Z.log2 j - 52).
  set (ez := Z.min ei ej).
  rewrite !shl_align_value by (unfold ez; lia). rewrite Hmi, Hmj.
  assert (Hvi : i * 2 ^ (52 - Z.log2 i) * 2 ^ (ei - ez) = i * 2 ^ (- ez)).
  { rewrite <- Z.mul_assoc, <- Z.pow_add_r by (unfold ez, ei; lia).
    do 2 f_equal. unfold ei. lia. }
  assert (Hvj : j * 2 ^ (52 - Z.log2 j) * 2 ^ (ej - ez) = j * 2 ^ (- ez)).
  { rewrite <- Z.mul_assoc, <- Z.pow_add_r by (unfold ez, ej; lia).
    do 2 f_equal. unfold ej. lia. }
  rewrite Hvi, Hvj.
  assert (Hez : ez <= 0) by (unfold ez, ei; lia).
  assert (Hp : 0 < 2 ^ (- ez)) by (apply Z.pow_pos_nonneg; lia).
  destruct (Z.eqb_spec i j) as [->|Hne].
  - rewrite Z.sub_diag. reflexivity.
  - destruct (i * 2 ^ (- ez) - j * 2 ^ (- ez)) as [|M|M] eqn:HD.
    + nia.
    + cbn [binary_normalize].
      assert (j < i) by nia.
      destruct (Z.ltb_spec i j); [lia|].
      apply binary_round_integer'; [lia|exact Hez|]. nia.
    + cbn [binary_normalize].
      assert (i < j) by nia.
      destruct (Z.ltb_spec i j); [|lia].
      apply binary_round_integer'; [lia|exact Hez|]. nia.
Qed.

(** [|x - y| = |y - x|], bit for bit. *)
Lemma Abs_sub_comm x y :
  Float64.Abs (Float64.sub x y) = Float64.Abs (Float64.sub y x).
Proof.
  unfold Float64.Abs, Float64.sub.
  destruct x as [sx|sx| |sx mx ex], y as [sy|sy| |sy my ey];
    try reflexivity; try (destruct sx, sy; reflexivity).
  cbn [SFsub]. rewrite (Z.min_comm ey ex).
  rewrite <- SFabs_binary_normalize_opp. f_equal. f_equal. lia.
Qed.

End Float64Facts.

Section Neighbors.
Context `{E : GoEnv}.

Lemma one_apart_comm x y : sophos.one_apart x y = sophos.one_apart y x.
Proof. unfold sophos.one_apart. rewrite Abs_sub_comm. reflexivity. Qed.

(** On integer stage indices below [2^53] the test of the code is "differ by
    exactly 1". *)
Lemma one_apart_integers i j :
  0 <= i < 2 ^ 53 -> 0 <= j < 2 ^ 53 ->
  sophos.one_apart (Float64.of_Z i) (Float64.of_Z j) = (Z.abs (i - j) =? 1).
Proof.
  intros Hi Hj. unfold sophos.one_apart, int64_of_float64.
  assert (Hdiff : forall s n,
             0 < n < 2 ^ 53 ->
             match Float64.trunc (Float64.Abs (Float64.integer_float s n)) with
             | Some z =>
                 if Int64.in_rangeb z then z else int64_unrepresentable
                   (Float64.Abs (Float64.integer_float s n))
             | None => int64_unrepresentable
                         (Float64.Abs (Float64.integer_float s n))
             end = n).
  { intros s n Hn.
    change (Float64.Abs (Float64.integer_float s n))
      with (Float64.integer_float false n).
    rewrite (trunc_integer_float false n Hn). cbn [cond_Zopp].
    unfold Int64.in_rangeb, Int64.MinInt64, Int64.MaxInt64.
    destruct (Z.leb_spec (- 2 ^ 63) n); [|lia].
    destruct (Z.leb_spec n (2 ^ 63 - 1)); [reflexivity|lia]. }
  destruct (Z.eq_dec i 0) as [->|Hi0]; destruct (Z.eq_dec j 0) as [->|Hj0].
  - reflexivity.
  - rewrite (of_Z_integer j) by lia.
    change (Float64.sub (Float64.of_Z 0) (Float64.integer_float false j))
      with (Float64.integer_float true j).
    rewrite Hdiff by lia. f_equal. lia.
  - rewrite (of_Z_integer i) by lia.
    change (Float64.sub (Float64.integer_float false i) (Float64.of_Z 0))
      with (Float64.integer_float false i).
    rewrite Hdiff by lia. f_equal. lia.
  - rewrite (of_Z_integer i), (of_Z_integer j) by lia.
    rewrite sub_integer_floats by lia.
    destruct (Z.eqb_spec i j) as [->|Hne].
    + rewrite Z.sub_diag. reflexivity.
    + rewrite Hdiff by lia. reflexivity.
Qed.

Lemma neighbors_loop_existsb peerPod visit :
  sophos.neighbors_loop peerPod visit = existsb (neighbors_on peerPod) visit.
Proof.
  induction visit as [|[key value] rest IH]; [reflexivity|].
  cbn [sophos.neighbors_loop existsb neighbors_on].
  destruct (sophos.is_chain_key key); [|exact IH].
  destruct (ParseFloat value) as [index err]. cbn [andb fst].
  destruct (Pod.Labels peerPod !! key) as [peerValue|]; [|exact IH].
  destruct (ParseFloat peerValue) as [peerIndex err']. cbn [fst].
  destruct (sophos.one_apart index peerIndex); [reflexivity|exact IH].
Qed.

Lemma same_group_comm pod peerPod :
  same_group pod peerPod <-> same_group peerPod pod.
Proof. split; intros (g & H1 & H2); exists g; auto. Qed.

Lemma share_adjacent_key_comm pod peerPod :
  share_adjacent_key pod peerPod <-> share_adjacent_key peerPod pod.
Proof.
  split; intros (key & v & v' & Hk & H1 & H2 & H3); exists key, v', v;
    rewrite one_apart_comm; auto.
Qed.

Lemma ArePodsNeighbors_false_without_group pod peerPod :
  ~ same_group pod peerPod -> sophos.ArePodsNeighbors pod peerPod = false.
Proof.
  intros Hno. unfold sophos.ArePodsNeighbors.
  destruct (Pod.Labels pod !! "app-group") as [g|] eqn:Hg; [|reflexivity].
  destruct (Pod.Labels peerPod !! "app-group") as [g'|] eqn:Hg'; [|reflexivity].
  destruct (String.eqb_spec g g') as [->|Hne]; [|reflexivity].
  exfalso. apply Hno. exists g'. auto.
Qed.

Lemma same_group_dec pod peerPod :
  same_group pod peerPod \/ ~ same_group pod peerPod.
Proof.
  unfold same_group.
  destruct (Pod.Labels pod !! "app-group") as [g|];
    [|right; intros (? & ? & _); discriminate].
  destruct (Pod.Labels peerPod !! "app-group") as [g'|];
    [|right; intros (? & _ & ?); discriminate].
  destruct (decide (g = g')) as [->|Hne].
  - left. exists g'. auto.
  - right. intros (? & H1 & H2). congruence.
Qed.

Context {OK : GoEnvOK E}.

Lemma ArePodsNeighbors_spec pod peerPod :
  sophos.ArePodsNeighbors pod peerPod = true
  <-> same_group pod peerPod /\ share_adjacent_key pod peerPod.
Proof.
  destruct (same_group_dec pod peerPod) as [Hsame|Hno].
  2:{ rewrite (ArePodsNeighbors_false_without_group pod peerPod Hno).
      split; [discriminate|]. intros [H _]. contradiction. }
  destruct Hsame as (g & Hg & Hg').
  unfold sophos.ArePodsNeighbors. rewrite Hg, Hg', String.eqb_refl.
  cbn [negb]. rewrite neighbors_loop_existsb, existsb_range. split.
  - intros (key & value & Hkv & Hon). split; [exists g; auto|].
    cbn [neighbors_on] in Hon. apply andb_true_iff in Hon as [Hkey Hon].
    destruct (Pod.Labels peerPod !! key) as [peerValue|] eqn:Hpv;
      [|discriminate].
    exists key, value, peerValue. auto.
  - intros [_ (key & value & peerValue & Hkey & Hkv & Hpv & Hone)].
    exists key, value. split; [exact Hkv|].
    cbn [neighbors_on]. rewrite Hkey, Hpv. exact Hone.
Qed.

End Neighbors.

Section NeighborClaims.
Context `{OK : GoEnvOK}.

(** C9.  [ArePodsNeighbors] is symmetric: for every pair of workloads,
    [areNeighbors(a, b) = areNeighbors(b, a)]. *)
Theorem ArePodsNeighbors_comm a b :
  sophos.ArePodsNeighbors a b = sophos.ArePodsNeighbors b a.
Proof.
  apply eq_true_iff_eq.
  rewrite !ArePodsNeighbors_spec, (same_group_comm a b),
    (share_adjacent_key_comm a b).
  reflexivity.
Qed.

Lemma stage_value_Some pod key x :
  stage_value pod key = Some x
  <-> sophos.is_chain_key key = true
      /\ exists value, Pod.Labels pod !! key = Some value
                       /\ ParseFloat value = (x, None).
Proof.
  unfold stage_value. destruct (sophos.is_chain_key key).
  2:{ split; [discriminate|]. intros [? _]. discriminate. }
  destruct (Pod.Labels pod !! key) as [value|].
  2:{ split; [discriminate|]. intros [_ (? & ? & _)]. discriminate. }
  destruct (ParseFloat value) as [index [err|]] eqn:Hp.
  - split; [discriminate|]. intros [_ (v & Hv & Hpv)].
    injection Hv as <-. rewrite Hp in Hpv. discriminate.
  - split.
    + intros [= <-]. split; [reflexivity|]. exists value. auto.
    + intros [_ (v & Hv & Hpv)]. injection Hv as <-.
      rewrite Hp in Hpv. injection Hpv as <-. reflexivity.
Qed.

(** C6, amended.  For two workloads whose values on the stage keys they
    share parse as numbers: [ArePodsNeighbors] returns true iff both carry
    the pipeline-group label with equal values and some stage key is
    present on both with indices [x] and [y] such that
    [int64(|x - y|) = 1], the absolute difference truncated to an integer
    ([sophos.one_apart]).  It returns false, for all workloads and whatever
    their stage values are, whenever a group label is absent or the groups
    differ.  For indices that are
    integers from 0 to below [2^53], the truncated difference is 1 exactly
    when the indices differ by exactly 1. *)
Theorem ArePodsNeighbors_iff pod peerPod :
  ((forall key value,
       sophos.is_chain_key key = true ->
       Pod.Labels pod !! key = Some value ->
       is_Some (Pod.Labels peerPod !! key) ->
       (ParseFloat value).2 = None) ->
   (forall key value,
       sophos.is_chain_key key = true ->
       Pod.Labels peerPod !! key = Some value ->
       is_Some (Pod.Labels pod !! key) ->
       (ParseFloat value).2 = None) ->
   (sophos.ArePodsNeighbors pod peerPod = true
    <-> same_group pod peerPod
        /\ exists key x y,
             stage_value pod key = Some x
             /\ stage_value peerPod key = Some y
             /\ sophos.one_apart x y = true))
  /\ (Pod.Labels pod !! "app-group" = None
      \/ Pod.Labels peerPod !! "app-group" = None
      \/ Pod.Labels pod !! "app-group" <> Pod.Labels peerPod !! "app-group" ->
      sophos.ArePodsNeighbors pod peerPod = false)
  /\ (forall i j,
        0 <= i < 2 ^ 53 -> 0 <= j < 2 ^ 53 ->
        sophos.one_apart (Float64.of_Z i) (Float64.of_Z j) = true
        <-> Z.abs (i - j) = 1).
Proof.
  split; [|split].
  3:{ intros i j Hi Hj. rewrite (one_apart_integers i j Hi Hj).
      apply Z.eqb_eq. }
  - intros Hpod Hpeer.
    rewrite ArePodsNeighbors_spec. split; intros [Hsame H]; (split; [exact Hsame|]).
    + destruct H as (key & value & peerValue & Hkey & Hv & Hpv & Hone).
      pose proof (Hpod key value Hkey Hv (ex_intro _ _ Hpv)) as Hok.
      pose proof (Hpeer key peerValue Hkey Hpv (ex_intro _ _ Hv)) as Hok'.
      destruct (ParseFloat value) as [x e] eqn:Hx.
      destruct (ParseFloat peerValue) as [y e'] eqn:Hy.
      cbn in Hok, Hok', Hone. subst e e'.
      exists key, x, y. rewrite !stage_value_Some. eauto 10.
    + destruct H as (key & x & y & Hx & Hy & Hone).
      apply stage_value_Some in Hx as [Hkey (value & Hv & Hx)].
      apply stage_value_Some in Hy as [_ (peerValue & Hpv & Hy)].
      exists key, value, peerValue. rewrite Hx, Hy. auto.
  - intros Hbad. apply ArePodsNeighbors_false_without_group.
    intros (g & Hg & Hg').
    destruct Hbad as [H|[H|H]]; congruence.
Qed.

Lemma same_group_without_label key pod peerPod :
  sophos.is_chain_key key = true ->
  same_group (without_label key pod) peerPod <-> same_group pod peerPod.
Proof.
  intros Hkey. pose proof (chain_key_not_group key Hkey) as Hne.
  unfold same_group, without_label. cbn [Pod.Labels].
  rewrite lookup_delete_ne by congruence. reflexivity.
Qed.

Lemma share_adjacent_key_without_label key pod peerPod :
  Pod.Labels peerPod !! key = None ->
  share_adjacent_key (without_label key pod) peerPod
  <-> share_adjacent_key pod peerPod.
Proof.
  intros Hnone. unfold share_adjacent_key, without_label. cbn [Pod.Labels].
  split; intros (k & v & v' & Hk & Hv & Hv' & Hone); exists k, v, v'.
  - apply lookup_delete_Some in Hv as [_ Hv]. auto.
  - assert (key <> k) by congruence.
    rewrite lookup_delete_ne by assumption. auto.
Qed.

(** C3, amended.  A stage label value that is not a decimal integer makes
    the admission check return false: the workload is held back, the key is
    neither skipped nor read as index 0.  In the neighbour check a stage
    key that the other workload lacks plays no part: the answer is the one
    for the workload without that key. *)
Theorem unparsable_or_missing_stage :
  (forall handle pod key value,
      Pod.Labels pod !! key = Some value ->
      sophos.is_chain_key key = true ->
      strconv.Atoi value = None ->
      sophos.AreLesserOrderPodsScheduled handle pod = false)
  /\ (forall pod peerPod key,
        sophos.is_chain_key key = true ->
        Pod.Labels peerPod !! key = None ->
        sophos.ArePodsNeighbors pod peerPod
        = sophos.ArePodsNeighbors (without_label key pod) peerPod
        /\ sophos.ArePodsNeighbors peerPod pod
           = sophos.ArePodsNeighbors peerPod (without_label key pod)).
Proof.
  split.
  - intros handle pod key value Hkv Hkey Hatoi.
    unfold sophos.AreLesserOrderPodsScheduled.
    destruct (Pod.Labels pod !! "app-group") as [g|]; [|reflexivity].
    apply not_true_is_false. rewrite lesser_order_loop_forallb, forallb_range.
    intros H. specialize (H key value Hkv). cbn [lesser_order_ok] in H.
    rewrite Hkey, Hatoi in H. discriminate.
  - intros pod peerPod key Hkey Hnone.
    assert (Hleft : sophos.ArePodsNeighbors pod peerPod
                    = sophos.ArePodsNeighbors (without_label key pod) peerPod).
    { apply eq_true_iff_eq. rewrite !ArePodsNeighbors_spec.
      rewrite (same_group_without_label key pod peerPod Hkey).
      rewrite (share_adjacent_key_without_label key pod peerPod Hnone).
      reflexivity. }
    split; [exact Hleft|].
    apply eq_true_iff_eq. rewrite !ArePodsNeighbors_spec.
    rewrite (same_group_comm peerPod (without_label key pod)),
      (share_adjacent_key_comm peerPod (without_label key pod)),
      (same_group_without_label key pod peerPod Hkey),
      (share_adjacent_key_without_label key pod peerPod Hnone),
      (same_group_comm peerPod pod), (share_adjacent_key_comm peerPod pod).
    reflexivity.
Qed.

End NeighborClaims.

Lemma ArePodsNeighbors_comm_witness :
  GoEnvOK Example_env.env
  /\ @sophos.ArePodsNeighbors Example_env.env W1 W0
     = @sophos.ArePodsNeighbors Example_env.env W0 W1.
Proof.
  split; [exact Example_env_ok|].
  exact (@ArePodsNeighbors_comm Example_env.env Example_env_ok W1 W0).
Defined.

(** The labels of a pod with the group label and one stage key. *)
Lemma two_labels (g key v k value : string) :
  ({[ "app-group" := g; key := v ]} : gmap string string) !! k = Some value ->
  (k = "app-group" /\ value = g) \/ (k = key /\ value = v).
Proof.
  intros H.
  apply lookup_insert_Some in H as [[<- <-]|[_ H]]; [auto|].
  apply lookup_singleton_Some in H as [<- <-]. auto.
Qed.

Lemma ArePodsNeighbors_iff_witness :
  GoEnvOK Example_env.env
  /\ (@sophos.ArePodsNeighbors Example_env.env W1 W0 = true
      <-> @same_group W1 W0
          /\ exists key x y,
               @stage_value Example_env.env W1 key = Some x
               /\ @stage_value Example_env.env W0 key = Some y
               /\ @sophos.one_apart Example_env.env x y = true).
Proof.
  split; [exact Example_env_ok|].
  refine (proj1 (@ArePodsNeighbors_iff Example_env.env Example_env_ok W1 W0)
                _ _).
  - intros key value Hkey Hkv _.
    destruct (two_labels _ _ _ _ _ Hkv) as [[-> ->]|[-> ->]];
      [discriminate Hkey|reflexivity].
  - intros key value Hkey Hkv _.
    destruct (two_labels _ _ _ _ _ Hkv) as [[-> ->]|[-> ->]];
      [discriminate Hkey|reflexivity].
Defined.

(** C6 as stated fails: [Whalf] and [P1] are in the same group and their
    values on the only stage key, 2.5 and 1, differ by 1.5; the difference
    truncates to 1 and [ArePodsNeighbors] returns true. *)
Lemma claimed_neighbors_iff_fails : ~ @claimed_neighbors_iff Example_env.env.
Proof.
  intros claim. destruct (claim Whalf P1) as [claim' _].
  destruct claim' as [_ (key & x & y & Hx & Hy & Hone)];
    [vm_compute; reflexivity|].
  apply (@stage_value_Some Example_env.env) in Hx as [Hkey (v & Hv & Hx)].
  apply (@stage_value_Some Example_env.env) in Hy as [_ (v' & Hv' & Hy)].
  destruct (two_labels _ _ _ _ _ Hv) as [[-> ->]|[-> ->]]; [discriminate Hkey|].
  destruct (two_labels _ _ _ _ _ Hv') as [[? ->]|[_ ->]]; [discriminate|].
  vm_compute in Hx, Hy. injection Hx as <-. injection Hy as <-.
  vm_compute in Hone. discriminate Hone.
Qed.

Lemma unparsable_or_missing_stage_witness :
  GoEnvOK Example_env.env
  /\ @sophos.AreLesserOrderPodsScheduled Example_env.env
       (Cluster.handle (cluster_of [])) Wx = false.
Proof.
  split; [exact Example_env_ok|].
  apply (proj1 (@unparsable_or_missing_stage Example_env.env Example_env_ok)
               (Cluster.handle (cluster_of [])) Wx "chain-a" "x");
    vm_compute; reflexivity.
Defined.

(** C3 as stated fails, in both checks.  The value ["x"] of [chain-a] on
    [Wx] is not a number.  The admission check returns false for [Wx] and
    true once the key is taken away; the neighbour check returns true for
    [Wx] and [P1], reading ["x"] as the 0 that [ParseFloat] returns with its
    error, and false once the key is taken away. *)
Lemma claimed_not_participating_fails :
  ~ @claimed_not_participating Example_env.env.
Proof.
  intros claim.
  destruct (claim (Cluster.handle (cluster_of [])) Wx P1 "chain-a" "x")
    as [Hgate Hneighbors]; try (vm_compute; reflexivity).
  - vm_compute. discriminate.
  - vm_compute in Hgate. discriminate Hgate.
Qed.

Example unparsable_stage_blocks_and_counts_as_zero :
  @sophos.AreLesserOrderPodsScheduled Example_env.env
    (Cluster.handle (cluster_of [])) Wx = false
  /\ @sophos.AreLesserOrderPodsScheduled Example_env.env
       (Cluster.handle (cluster_of [])) (without_label "chain-a" Wx) = true
  /\ @sophos.ArePodsNeighbors Example_env.env Wx P1 = true
  /\ @sophos.ArePodsNeighbors Example_env.env (without_label "chain-a" Wx) P1
     = false.
Proof. vm_compute. repeat split. Qed.

(** ** The predicted usage of a workload *)

Section Usage.
Context `{E : GoEnv}.

Lemma GetOwnerDeployment_None handle pod :
  traversal_fails handle pod -> sophos.GetOwnerDeployment handle pod = None.
Proof.
  unfold sophos.GetOwnerDeployment.
  intros [H|o os H Hk|o os H Hr|o os rs H Hr Hrs|o os rs o' os' H Hr Hrs Hd];
    rewrite H; [reflexivity|..];
    destruct (String.eqb_spec (OwnerReference.Kind o) "ReplicaSet");
    try reflexivity; try contradiction; cbn [negb]; rewrite Hr;
    [reflexivity|rewrite Hrs..]; [reflexivity|exact Hd].
Qed.

Lemma traversal_fails_of_None handle pod :
  sophos.GetOwnerDeployment handle pod = None -> traversal_fails handle pod.
Proof.
  unfold sophos.GetOwnerDeployment.
  destruct (Pod.OwnerReferences pod) as [|o os] eqn:H;
    [intros _; apply no_owner; exact H|].
  destruct (String.eqb_spec (OwnerReference.Kind o) "ReplicaSet") as [Hk|Hk];
    [|intros _; eapply owner_not_replica_set; eauto]. cbn [negb].
  destruct (ReplicaSets_Get _ _ _) as [rs|] eqn:Hr;
    [|intros _; eapply replica_set_not_fetched; eauto].
  destruct (ReplicaSet.OwnerReferences rs) as [|o' os'] eqn:Hrs;
    [intros _; eapply replica_set_without_owner; eauto|].
  intros Hd. eapply deployment_not_fetched; eauto.
Qed.

(** C4, amended.  When the owner traversal of a workload fails at any hop,
    the predicted CPU usage and the predicted memory usage are both 0.0,
    whatever the annotations of the workload itself say. *)
Theorem usage_is_zero_without_owner handle pod :
  traversal_fails handle pod ->
  sophos.GetAppCpuUsage handle pod = Float64.zero
  /\ sophos.GetAppMemoryUsage handle pod = Float64.zero.
Proof.
  intros Hfails. unfold sophos.GetAppCpuUsage, sophos.GetAppMemoryUsage.
  rewrite (GetOwnerDeployment_None handle pod Hfails). split; reflexivity.
Qed.

End Usage.

Lemma usage_is_zero_without_owner_witness :
  traversal_fails (Cluster.handle (cluster_of [])) orphan
  /\ @sophos.GetAppCpuUsage Example_env.env (Cluster.handle (cluster_of []))
                            orphan = Float64.zero
  /\ @sophos.GetAppMemoryUsage Example_env.env (Cluster.handle (cluster_of []))
                               orphan = Float64.zero.
Proof.
  split; [apply no_owner; reflexivity|].
  apply (@usage_is_zero_without_owner Example_env.env
           (Cluster.handle (cluster_of [])) orphan).
  apply no_owner. reflexivity.
Defined.

(** C4 as stated fails: [orphan] has no owner and carries the annotation
    [cpu-usage = 5]; the predicted CPU usage is 0.0, not the 5.0 of its own
    annotation. *)
Lemma claimed_usage_fallback_fails : ~ @claimed_usage_fallback Example_env.env.
Proof.
  intros claim.
  destruct (claim (Cluster.handle (cluster_of [])) orphan eq_refl) as [Hcpu _].
  vm_compute in Hcpu. discriminate Hcpu.
Qed.

(** ** The shared SLO budgets *)

Section SharedSlos.
Context `{E : GoEnv}.

Lemma before_stop_prefix pod peerPod visit :
  before_stop pod peerPod visit `prefix_of` visit.
Proof.
  induction visit as [|kv rest IH]; cbn [before_stop]; [reflexivity|].
  destruct (stops pod peerPod kv); [apply prefix_nil|].
  apply prefix_cons, IH.
Qed.

Lemma before_stop_all pod peerPod visit :
  Forall (fun kv => stops pod peerPod kv = false) visit ->
  before_stop pod peerPod visit = visit.
Proof.
  induction 1 as [|kv rest Hkv _ IH]; cbn [before_stop]; [reflexivity|].
  rewrite Hkv, IH. reflexivity.
Qed.

(** The loop appends to the slice the budgets of the entries it visits
    before it returns. *)
Lemma shared_slos_loop_spec pod peerPod visit chainsSlos :
  Forall (fun kv => Pod.Labels pod !! kv.1 = Some kv.2) visit ->
  (forall key peerValue,
      sophos.is_chain_key key = true ->
      is_Some (Pod.Labels pod !! key) ->
      Pod.Labels peerPod !! key = Some peerValue ->
      (ParseFloat peerValue).2 = None) ->
  sophos.shared_slos_loop pod peerPod visit chainsSlos
  = chainsSlos
      ++ concat (map (slo_of_key pod peerPod) (before_stop pod peerPod visit)).
Proof.
  intros Hvisit Hpeer. revert chainsSlos.
  induction Hvisit as [|[key value] rest Hkv _ IH]; intros chainsSlos.
  { cbn. rewrite app_nil_r. reflexivity. }
  cbn [fst snd] in Hkv.
  cbn [sophos.shared_slos_loop before_stop stops].
  destruct (sophos.is_chain_key key) eqn:Hkey; cbn [andb].
  2:{ cbn [map concat]. unfold slo_of_key at 1, stage_value. rewrite Hkey.
      cbn [app]. apply IH. }
  destruct (ParseFloat value) as [index [err|]] eqn:Hindex.
  { cbn. rewrite app_nil_r. reflexivity. }
  destruct (Pod.Labels peerPod !! key) as [peerValue|] eqn:Hpv.
  2:{ cbn [map concat]. unfold slo_of_key at 1, stage_value.
      rewrite Hkey, Hkv, Hindex, Hpv. cbn [app]. apply IH. }
  pose proof (Hpeer key peerValue Hkey (ex_intro _ _ Hkv) Hpv) as Hok.
  destruct (ParseFloat peerValue) as [peerIndex err'] eqn:Hpeerindex.
  cbn [fst snd] in Hok |- *. subst err'.
  destruct (sophos.one_apart index peerIndex) eqn:Hone; cbn [andb].
  2:{ cbn [map concat]. unfold slo_of_key at 1, stage_value.
      rewrite Hkey, Hkv, Hindex, Hpv, Hpeerindex, Hone. cbn [app]. apply IH. }
  destruct (Pod.Annotations pod !! String.append key "-slo")
    as [annotation|] eqn:Hslo.
  2:{ cbn. rewrite app_nil_r. reflexivity. }
  destruct (ParseFloat annotation) as [chainSlo [err|]] eqn:Hchainslo.
  { cbn. rewrite app_nil_r. reflexivity. }
  cbn [map concat]. unfold slo_of_key at 1, stage_value.
  rewrite Hkey, Hkv, Hindex, Hpv, Hpeerindex, Hone, Hslo, Hchainslo.
  rewrite IH, <- app_assoc. reflexivity.
Qed.

Lemma GetSharedChainsSlos_without_group pod peerPod :
  ~ same_group pod peerPod -> sophos.GetSharedChainsSlos pod peerPod = [].
Proof.
  intros Hno. unfold sophos.GetSharedChainsSlos.
  destruct (Pod.Labels pod !! "app-group") as [g|] eqn:Hg; [|reflexivity].
  destruct (Pod.Labels peerPod !! "app-group") as [g'|] eqn:Hg'; [|reflexivity].
  destruct (String.eqb_spec g g') as [->|Hne]; [|reflexivity].
  exfalso. apply Hno. exists g'. auto.
Qed.

Context {OK : GoEnvOK E}.

Lemma range_order_lookups (m : gmap string string) :
  Forall (fun kv => m !! kv.1 = Some kv.2) (range_order m).
Proof.
  apply Forall_forall. intros [k v] Hin. apply range_order_elem, Hin.
Qed.

(** C5, amended.  For two workloads of the same pipeline group (the values
    of the peer on the shared stage keys being numbers),
    [GetSharedChainsSlos] visits the stage keys in the order of the map
    iteration and returns the SLO budgets of the neighbouring keys visited
    before the first entry at which it stops: a stage value of the workload
    that does not parse, or a neighbouring key whose SLO annotation is
    missing or does not parse.  What it returns is thus a prefix of the
    budgets of all the qualifying keys, and all of them when no entry stops
    the scan.  A missing pipeline-group label on either workload makes the
    call return the empty sequence, for all workloads and whatever their
    stage values are. *)
Theorem GetSharedChainsSlos_scan pod peerPod :
  (same_group pod peerPod ->
   (forall key peerValue,
       sophos.is_chain_key key = true ->
       is_Some (Pod.Labels pod !! key) ->
       Pod.Labels peerPod !! key = Some peerValue ->
       (ParseFloat peerValue).2 = None) ->
   sophos.GetSharedChainsSlos pod peerPod
   = concat (map (slo_of_key pod peerPod)
                 (before_stop pod peerPod (range_order (Pod.Labels pod))))
   /\ sophos.GetSharedChainsSlos pod peerPod
        `prefix_of` sharedSlos_spec pod peerPod
   /\ ((forall key value,
           Pod.Labels pod !! key = Some value ->
           stops pod peerPod (key, value) = false) ->
       sophos.GetSharedChainsSlos pod peerPod = sharedSlos_spec pod peerPod))
  /\ (Pod.Labels pod !! "app-group" = None
      \/ Pod.Labels peerPod !! "app-group" = None ->
      sophos.GetSharedChainsSlos pod peerPod = []).
Proof.
  split.
  - intros (g & Hg & Hg') Hpeer.
    assert (Hscan : sophos.GetSharedChainsSlos pod peerPod
              = concat (map (slo_of_key pod peerPod)
                  (before_stop pod peerPod (range_order (Pod.Labels pod))))).
    { unfold sophos.GetSharedChainsSlos.
      rewrite Hg, Hg', String.eqb_refl. cbn [negb].
      rewrite (shared_slos_loop_spec pod peerPod _ []
                 (range_order_lookups (Pod.Labels pod)) Hpeer).
      reflexivity. }
    assert (Hspec : sharedSlos_spec pod peerPod
              = concat (map (slo_of_key pod peerPod)
                            (range_order (Pod.Labels pod)))).
    { unfold sharedSlos_spec. rewrite Hg, Hg', String.eqb_refl. reflexivity. }
    split; [exact Hscan|]. split.
    + rewrite Hscan, Hspec.
      destruct (before_stop_prefix pod peerPod (range_order (Pod.Labels pod)))
        as [rest Hrest].
      rewrite Hrest at 2. rewrite map_app, concat_app.
      apply prefix_app_r. reflexivity.
    + intros Hnostop. rewrite Hscan, Hspec, before_stop_all; [reflexivity|].
      apply Forall_forall. intros [key value] Hin.
      apply Hnostop, range_order_elem, Hin.
  - intros Hnone. apply GetSharedChainsSlos_without_group.
    intros (g & Hg & Hg'). destruct Hnone; congruence.
Qed.

End SharedSlos.

Lemma GetSharedChainsSlos_scan_witness :
  GoEnvOK Example_env.env_reversed
  /\ @same_group A2 B2
  /\ @sophos.GetSharedChainsSlos Example_env.env_reversed A2 B2
     = [Float64.of_Z 20]
  /\ @sophos.GetSharedChainsSlos Example_env.env_reversed A2 B2
       `prefix_of` @sharedSlos_spec Example_env.env_reversed A2 B2.
Proof.
  split; [exact Example_env_reversed_ok|].
  assert (Hsame : @same_group A2 B2) by (exists "g"; split; reflexivity).
  split; [exact Hsame|]. split; [vm_compute; reflexivity|].
  refine (proj1 (proj2 (proj1 (@GetSharedChainsSlos_scan
                                 Example_env.env_reversed
                                 Example_env_reversed_ok A2 B2)
                              Hsame _))).
  intros key peerValue Hkey _ Hpv. cbn [B2 labelled Pod.Labels] in Hpv.
  apply lookup_insert_Some in Hpv as [[<- <-]|[_ Hpv]]; [discriminate Hkey|].
  apply lookup_insert_Some in Hpv as [[<- <-]|[_ Hpv]]; [reflexivity|].
  apply lookup_singleton_Some in Hpv as [<- <-]. reflexivity.
Defined.

(** C5 as stated fails: [A2] and [B2] are neighbours on [chain-a] and on
    [chain-b], and only [chain-b] has an SLO budget, 20.  The scan that visits
    [chain-a] first returns the empty sequence instead of the budget of
    [chain-b]. *)
Lemma claimed_shared_slos_fails : ~ @claimed_shared_slos Example_env.env.
Proof.
  intros claim. destruct (claim A2 B2) as [claim' _].
  assert (Hsame : @same_group A2 B2) by (exists "g"; split; reflexivity).
  specialize (claim' Hsame). vm_compute in claim'. discriminate claim'.
Qed.

(** The answer for the same two pods depends on the order of the visit. *)
Example GetSharedChainsSlos_order :
  @sophos.GetSharedChainsSlos Example_env.env A2 B2 = []
  /\ @sophos.GetSharedChainsSlos Example_env.env_reversed A2 B2
     = [Float64.of_Z 20].
Proof. vm_compute. split; reflexivity. Qed.

(** ** The score normaliser *)

Section Int64Facts.

Lemma wrap_in_range z : Int64.in_range z -> Int64.wrap z = z.
Proof.
  unfold Int64.in_range, Int64.MinInt64, Int64.MaxInt64, Int64.wrap.
  intros H. rewrite Z.mod_small; lia.
Qed.



End Int64Facts.

Section NormalizeFacts.

Lemma foldr_min_acc l a b :
  foldr Z.min (Z.min a b) l = Z.min a (foldr Z.min b l).
Proof. induction l as [|y l IH]; cbn; [reflexivity|]. rewrite IH. lia. Qed.

Lemma foldr_max_acc l a b :
  foldr Z.max (Z.max a b) l = Z.max a (foldr Z.max b l).
Proof. induction l as [|y l IH]; cbn; [reflexivity|]. rewrite IH. lia. Qed.

Lemma foldr_min_bounds x l :
  foldr Z.min x l <= x /\ Forall (fun y => foldr Z.min x l <= y) l.
Proof.
  induction l as [|y l [IH1 IH2]]; cbn; [split; [lia|constructor]|].
  split; [lia|]. constructor; [lia|].
  eapply Forall_impl; [exact IH2|]. cbn. intros; lia.
Qed.

Lemma foldr_max_bounds x l :
  x <= foldr Z.max x l /\ Forall (fun y => y <= foldr Z.max x l) l.
Proof.
  induction l as [|y l [IH1 IH2]]; cbn; [split; [lia|constructor]|].
  split; [lia|]. constructor; [lia|].
  eapply Forall_impl; [exact IH2|]. cbn. intros; lia.
Qed.

Lemma foldr_min_elem x l : foldr Z.min x l ∈ x :: l.
Proof.
  induction l as [|y l IH]; cbn; [left|].
  destruct (Z.min_spec y (foldr Z.min x l)) as [[_ ->]|[_ ->]].
  - right; left.
  - apply elem_of_cons in IH as [->|IH]; [left|right; right; exact IH].
Qed.

Lemma foldr_max_elem x l : foldr Z.max x l ∈ x :: l.
Proof.
  induction l as [|y l IH]; cbn; [left|].
  destruct (Z.max_spec y (foldr Z.max x l)) as [[_ ->]|[_ ->]].
  - apply elem_of_cons in IH as [->|IH]; [left|right; right; exact IH].
  - right; left.
Qed.

(** [lowest_of] and [highest_of] are the minimum and the maximum. *)
Lemma lowest_of_le l x : x ∈ l -> lowest_of l <= x.
Proof.
  destruct l as [|y l]; [inversion 1|]. cbn [lowest_of].
  destruct (foldr_min_bounds y l) as [H1 H2].
  intros Hx. apply elem_of_cons in Hx as [->|Hx]; [exact H1|].
  rewrite Forall_forall in H2. apply H2, Hx.
Qed.

Lemma highest_of_ge l x : x ∈ l -> x <= highest_of l.
Proof.
  destruct l as [|y l]; [inversion 1|]. cbn [highest_of].
  destruct (foldr_max_bounds y l) as [H1 H2].
  intros Hx. apply elem_of_cons in Hx as [->|Hx]; [exact H1|].
  rewrite Forall_forall in H2. apply H2, Hx.
Qed.

Lemma lowest_of_elem l : l <> [] -> lowest_of l ∈ l.
Proof. destruct l; [congruence|]. intros _. apply foldr_min_elem. Qed.

Lemma highest_of_elem l : l <> [] -> highest_of l ∈ l.
Proof. destruct l; [congruence|]. intros _. apply foldr_max_elem. Qed.

(** The first loop. *)
Lemma find_bounds_fold scores highest lowest :
  find_bounds scores highest lowest
  = (fold_left Z.max (raw_scores scores) highest,
     fold_left Z.min (raw_scores scores) lowest).
Proof.
  revert highest lowest.
  induction scores as [|nodeScore rest IH]; intros highest lowest;
    [reflexivity|].
  cbn [find_bounds raw_scores map fold_left]. rewrite IH. unfold raw_scores.
  f_equal; f_equal.
  - destruct (Z.gtb_spec (NodeScore.Score nodeScore) highest); lia.
  - destruct (Z.ltb_spec (NodeScore.Score nodeScore) lowest); lia.
Qed.

Lemma find_bounds_spec scores :
  scores <> [] ->
  find_bounds scores (- Int64.MaxInt64) Int64.MaxInt64
  = (Z.max (- Int64.MaxInt64) (highest_of (raw_scores scores)),
     Z.min Int64.MaxInt64 (lowest_of (raw_scores scores))).
Proof.
  intros Hne. rewrite find_bounds_fold.
  rewrite (fold_symmetric Z.max Z.max_assoc _ (Z.max_comm _)).
  rewrite (fold_symmetric Z.min Z.min_assoc _ (Z.min_comm _)).
  destruct scores as [|nodeScore rest]; [congruence|].
  cbn [raw_scores map fold_right highest_of lowest_of].
  rewrite <- !foldr_max_acc, <- !foldr_min_acc.
  rewrite (Z.max_comm (- Int64.MaxInt64)), (Z.min_comm Int64.MaxInt64).
  reflexivity.
Qed.

(** The second loop rewrites every score and nothing else. *)
Lemma rescale_loop_map lowest oldRange newRange done todo :
  fold_left (rescale_at lowest oldRange newRange)
            (seq (length done) (length todo)) (done ++ todo)
  = done
      ++ map (fun nodeScore =>
                {| NodeScore.Name := NodeScore.Name nodeScore;
                   NodeScore.Score :=
                     rescale lowest oldRange newRange
                             (NodeScore.Score nodeScore) |}) todo.
Proof.
  revert done. induction todo as [|nodeScore todo IH]; intros done;
    [reflexivity|].
  cbn [length seq fold_left map]. unfold rescale_at at 2.
  rewrite list_lookup_middle by reflexivity.
  rewrite insert_app_r_alt by lia. rewrite Nat.sub_diag. cbn [insert list_insert].
  rewrite (cons_middle _ done todo), app_assoc.
  specialize (IH (done ++ [ {| NodeScore.Name := NodeScore.Name nodeScore;
                               NodeScore.Score :=
                                 rescale lowest oldRange newRange
                                         (NodeScore.Score nodeScore) |} ])).
  rewrite length_app in IH. cbn [length] in IH.
  rewrite Nat.add_1_r in IH. rewrite IH, <- app_assoc. reflexivity.
Qed.

(** What [NormalizeScore] computes, in [int64] arithmetic. *)
Lemma NormalizeScore_map scores :
  NormalizeScore scores
  = (let '(highest, lowest) :=
       find_bounds scores (- Int64.MaxInt64) Int64.MaxInt64 in
     map (fun nodeScore =>
            {| NodeScore.Name := NodeScore.Name nodeScore;
               NodeScore.Score :=
                 rescale lowest (Int64.sub highest lowest)
                         (Int64.sub framework.MaxNodeScore
                                    framework.MinNodeScore)
                         (NodeScore.Score nodeScore) |}) scores,
     None).
Proof.
  unfold NormalizeScore.
  destruct (find_bounds _ _ _) as [highest lowest].
  f_equal. apply (rescale_loop_map _ _ _ [] scores).
Qed.

End NormalizeFacts.

Section NormalizeClaims.

Lemma quot_bounds d r :
  0 <= d <= r -> 0 < r -> 0 <= Z.quot (d * 100) r <= 100.
Proof.
  intros Hd Hr. rewrite Z.quot_div_nonneg by lia. split.
  - apply Z.div_pos; lia.
  - apply Z.div_le_upper_bound; lia.
Qed.

Lemma affine_bounds lowest highest raw :
  lowest <= raw <= highest ->
  framework.MinNodeScore
  <= affine lowest highest framework.MinNodeScore framework.MaxNodeScore raw
  <= framework.MaxNodeScore.
Proof.
  intros Hraw. unfold affine, framework.MinNodeScore, framework.MaxNodeScore.
  destruct (Z.eqb_spec lowest highest); [lia|].
  pose proof (quot_bounds (raw - lowest) (highest - lowest)
                          ltac:(lia) ltac:(lia)).
  replace (100 - 0) with 100 by reflexivity. lia.
Qed.

(** Within the spread that [int64] allows, the value that the second loop
    stores is the affine map over the mathematical integers. *)
Lemma rescale_affine lowest highest raw :
  Int64.in_range lowest -> Int64.in_range highest ->
  lowest <= raw <= highest ->
  highest - lowest <= max_spread ->
  rescale lowest
          (Int64.sub (Z.max (- Int64.MaxInt64) highest) lowest)
          (Int64.sub framework.MaxNodeScore framework.MinNodeScore) raw
  = affine lowest highest framework.MinNodeScore framework.MaxNodeScore raw.
Proof.
  intros Hlo Hhi Hraw Hspread.
  change max_spread with 92233720368547758 in Hspread.
  change (Int64.sub framework.MaxNodeScore framework.MinNodeScore) with 100.
  unfold rescale, affine, framework.MinNodeScore, framework.MaxNodeScore.
  unfold Int64.in_range, Int64.MinInt64, Int64.MaxInt64 in *.
  destruct (Z.eq_dec highest (- 2 ^ 63)) as [Hmin|Hmin].
  - assert (lowest = - 2 ^ 63) as -> by lia.
    assert (raw = - 2 ^ 63) as -> by lia. subst highest.
    vm_compute. reflexivity.
  - rewrite Z.max_r by lia.
    assert (Hold : Int64.sub highest lowest = highest - lowest)
      by (apply wrap_in_range;
          unfold Int64.in_range, Int64.MinInt64, Int64.MaxInt64; lia).
    rewrite Hold.
    destruct (Z.eqb_spec (highest - lowest) 0) as [Hz|Hz];
      destruct (Z.eqb_spec lowest highest) as [He|He]; try lia.
    pose proof (quot_bounds (raw - lowest) (highest - lowest)
                            ltac:(lia) ltac:(lia)) as Hq.
    replace (100 - 0) with 100 by reflexivity.
    unfold Int64.add, Int64.quot, Int64.mul, Int64.sub.
    rewrite (wrap_in_range (raw - lowest))
      by (unfold Int64.in_range, Int64.MinInt64, Int64.MaxInt64; lia).
    rewrite (wrap_in_range ((raw - lowest) * 100))
      by (unfold Int64.in_range, Int64.MinInt64, Int64.MaxInt64; lia).
    rewrite (wrap_in_range (Z.quot _ _))
      by (unfold Int64.in_range, Int64.MinInt64, Int64.MaxInt64; lia).
    apply wrap_in_range.
    unfold Int64.in_range, Int64.MinInt64, Int64.MaxInt64; lia.
Qed.

Lemma NormalizeScore_normalized scores :
  Forall Int64.in_range (raw_scores scores) ->
  highest_of (raw_scores scores) - lowest_of (raw_scores scores)
  <= max_spread ->
  NormalizeScore scores = (normalized scores, None).
Proof.
  intros Hrange Hspread.
  destruct (decide (scores = [])) as [->|Hne]; [reflexivity|].
  assert (Hraw : raw_scores scores <> [])
    by (destruct scores; [congruence|discriminate]).
  rewrite Forall_forall in Hrange.
  pose proof (Hrange _ (lowest_of_elem _ Hraw)) as Hlo.
  pose proof (Hrange _ (highest_of_elem _ Hraw)) as Hhi.
  rewrite NormalizeScore_map, (find_bounds_spec scores Hne).
  rewrite (Z.min_r Int64.MaxInt64) by apply Hlo.
  unfold normalized. f_equal. apply map_ext_in. intros nodeScore Hin.
  f_equal. apply rescale_affine; try assumption.
  assert (NodeScore.Score nodeScore ∈ raw_scores scores)
    by (apply list_elem_of_In, in_map, Hin).
  split; [apply lowest_of_le|apply highest_of_ge]; assumption.
Qed.

(** C2, amended.  For every raw score list whose spread, highest minus
    lowest, is at most [MaxInt64 / 100], the normaliser maps each raw score
    to [(raw - lowest) * (rangeMax - rangeMin) / (highest - lowest) +
    rangeMin] with the division that truncates, [lowest] and [highest] being
    the minimum and the maximum of the list; when they are equal every
    output is [rangeMin]; and the raw scores 10, 20, 30 are normalised to
    0, 50, 100 over the range from 0 to 100. *)
Theorem NormalizeScore_affine scores :
  Forall Int64.in_range (raw_scores scores) ->
  highest_of (raw_scores scores) - lowest_of (raw_scores scores)
  <= max_spread ->
  (NormalizeScore scores).1 = normalized scores
  /\ (lowest_of (raw_scores scores) = highest_of (raw_scores scores) ->
      Forall (fun nodeScore =>
                NodeScore.Score nodeScore = framework.MinNodeScore)
             (NormalizeScore scores).1)
  /\ raw_scores (NormalizeScore Examples.scenario5).1 = [0; 50; 100].
Proof.
  intros Hrange Hspread.
  rewrite (NormalizeScore_normalized scores Hrange Hspread). cbn [fst].
  split; [reflexivity|]. split; [|reflexivity].
  intros Heq. unfold normalized. rewrite Forall_forall.
  intros out Hout. apply list_elem_of_fmap in Hout as (nodeScore & -> & _).
  cbn [NodeScore.Score]. unfold affine. rewrite Heq, Z.eqb_refl. reflexivity.
Qed.

(** C10, amended.  For every raw score list whose spread is at most
    [MaxInt64 / 100], [NormalizeScore] returns success and leaves every
    output score between [MinNodeScore] and [MaxNodeScore], wherever the
    raw scores lie. *)
Theorem NormalizeScore_bounded scores :
  Forall Int64.in_range (raw_scores scores) ->
  highest_of (raw_scores scores) - lowest_of (raw_scores scores)
  <= max_spread ->
  (NormalizeScore scores).2 = None
  /\ Forall in_score_range (NormalizeScore scores).1.
Proof.
  intros Hrange Hspread.
  rewrite (NormalizeScore_normalized scores Hrange Hspread). cbn [fst snd].
  split; [reflexivity|]. unfold normalized. rewrite Forall_forall.
  intros out Hout. apply list_elem_of_fmap in Hout as (nodeScore & -> & Hin).
  unfold in_score_range. cbn [NodeScore.Score]. apply affine_bounds.
  assert (NodeScore.Score nodeScore ∈ raw_scores scores)
    by (apply list_elem_of_fmap; eauto).
  split; [apply lowest_of_le|apply highest_of_ge]; assumption.
Qed.

End NormalizeClaims.

Ltac in_range_list :=
  cbn; repeat (constructor;
               [unfold Int64.in_range, Int64.MinInt64, Int64.MaxInt64; lia|]);
  constructor.

Lemma NormalizeScore_affine_witness :
  Forall Int64.in_range (raw_scores scenario5)
  /\ highest_of (raw_scores scenario5) - lowest_of (raw_scores scenario5)
     <= max_spread
  /\ (NormalizeScore scenario5).1 = normalized scenario5.
Proof.
  split; [in_range_list|]. split; [vm_compute; discriminate|].
  apply (NormalizeScore_affine scenario5);
    [in_range_list|vm_compute; discriminate].
Defined.

Lemma NormalizeScore_bounded_witness :
  Forall Int64.in_range (raw_scores scenario5)
  /\ highest_of (raw_scores scenario5) - lowest_of (raw_scores scenario5)
     <= max_spread
  /\ (NormalizeScore scenario5).2 = None
  /\ Forall in_score_range (NormalizeScore scenario5).1.
Proof.
  split; [in_range_list|]. split; [vm_compute; discriminate|].
  apply (NormalizeScore_bounded scenario5);
    [in_range_list|vm_compute; discriminate].
Defined.

(** C2 as stated fails: for the raw scores 0 and 10^17 the product
    [(10^17 - 0) * 100] leaves [int64]; the second score is normalised to -84,
    where the affine map gives 100. *)
Lemma claimed_normalize_fails : ~ claimed_normalize.
Proof.
  intros claim.
  assert (H : (NormalizeScore far_apart).1 = normalized far_apart).
  { apply claim; [discriminate|in_range_list]. }
  vm_compute in H. discriminate H.
Qed.

(** C10 as stated fails on the same list: the output -84 is below
    [MinNodeScore]. *)
Lemma claimed_normalize_bounded_fails : ~ claimed_normalize_bounded.
Proof.
  intros claim.
  destruct (claim far_apart) as [_ H]; [discriminate|in_range_list|].
  rewrite Forall_forall in H.
  specialize (H (scored "n2" (-84))).
  assert (Hin : scored "n2" (-84) ∈ (NormalizeScore far_apart).1)
    by (vm_compute; right; left).
  specialize (H Hin). unfold in_score_range, framework.MinNodeScore in H.
  cbn in H. lia.
Qed.

Example NormalizeScore_far_apart :
  raw_scores (NormalizeScore far_apart).1 = [0; -84]
  /\ raw_scores (normalized far_apart) = [0; 100].
Proof. vm_compute. split; reflexivity. Qed.

(** Scenario 6 of the specification. *)
Example NormalizeScore_all_equal :
  raw_scores (NormalizeScore [scored "a" 5; scored "b" 5; scored "c" 5]).1
  = [framework.MinNodeScore; framework.MinNodeScore; framework.MinNodeScore].
Proof. reflexivity. Qed.

(** ** The SLO cost *)

Section SloCost.
Context `{E : GoEnv}.












End SloCost.


(** Scenario 4 of the specification, run through [Score], and its terms. *)
Example Score_scenario4 :
  @NetworkSloAware.Score Example_env.env (Cluster.handle scenario4) A "n1"
  = (-75, None)
  /\ @slo_terms Example_env.env (Cluster.handle scenario4) [A; B] A N1 [N1; N2]
     = [75].
Proof. vm_compute. split; reflexivity. Qed.


(** At scenario 4 itself the quotient is the integer 75 and the worded
    equation holds. *)
Example claimed_slo_cost_scenario4 :
  Float64.of_Z
    (@NetworkSloAware.Score Example_env.env (Cluster.handle scenario4) A "n1").1
  = fold_left Float64.sub
              (@all_terms Example_env.env (Cluster.handle scenario4) A N1
                          (bound_to [A; B]) [N1; N2])
              (Float64.of_Z 0).
Proof. vm_compute. reflexivity. Qed.

Example Score_scenario4_fraction :
  @NetworkSloAware.Score Example_env.env (Cluster.handle scenario4_fraction)
                         A3 "n1"
  = (-333, None).
Proof. vm_compute. reflexivity. Qed.

(** * Further properties of the code *)

(** ** The score normaliser keeps the nodes and their ranking *)

Section NormalizeExtras.

(** X1.  [NormalizeScore] always returns success and changes nothing but the
    scores: the slice keeps its length, and every position keeps the name of
    its node, whatever the raw scores are. *)
Theorem NormalizeScore_keeps_nodes scores :
  (NormalizeScore scores).2 = None
  /\ length (NormalizeScore scores).1 = length scores
  /\ map NodeScore.Name (NormalizeScore scores).1 = map NodeScore.Name scores.
Proof.
  rewrite NormalizeScore_map.
  destruct (find_bounds _ _ _) as [highest lowest]. cbn [fst snd].
  split; [reflexivity|]. split.
  - apply length_map.
  - rewrite map_map. reflexivity.
Qed.

Lemma normalized_lookup scores i a' :
  normalized scores !! i = Some a' ->
  exists a,
    scores !! i = Some a
    /\ NodeScore.Name a' = NodeScore.Name a
    /\ NodeScore.Score a'
       = affine (lowest_of (raw_scores scores)) (highest_of (raw_scores scores))
                framework.MinNodeScore framework.MaxNodeScore
                (NodeScore.Score a).
Proof.
  unfold normalized. intros H.
  change (map ?f scores) with (f <$> scores) in H.
  rewrite list_lookup_fmap in H.
  destruct (scores !! i) as [a|]; [|discriminate].
  injection H as <-. exists a. auto.
Qed.

Lemma raw_score_bounds scores i a :
  scores !! i = Some a ->
  lowest_of (raw_scores scores) <= NodeScore.Score a
  <= highest_of (raw_scores scores).
Proof.
  intros H.
  assert (NodeScore.Score a ∈ raw_scores scores).
  { apply list_elem_of_fmap. exists a. split; [reflexivity|].
    apply list_elem_of_lookup. eauto. }
  split; [apply lowest_of_le|apply highest_of_ge]; assumption.
Qed.

Lemma affine_monotone lowest highest x y :
  lowest <= x -> x <= y -> y <= highest ->
  affine lowest highest framework.MinNodeScore framework.MaxNodeScore x
  <= affine lowest highest framework.MinNodeScore framework.MaxNodeScore y.
Proof.
  intros Hx Hxy Hy. unfold affine.
  destruct (Z.eqb_spec lowest highest); [lia|].
  apply Z.add_le_mono_r. apply Z.quot_le_mono; [lia|].
  unfold framework.MinNodeScore, framework.MaxNodeScore. nia.
Qed.

(** X2.  Within the spread that [int64] allows, [NormalizeScore] keeps the
    ranking: a node whose raw score is not above that of another node gets a
    normalised score that is not above the other's. *)
Theorem NormalizeScore_monotone scores i j a b a' b' :
  Forall Int64.in_range (raw_scores scores) ->
  highest_of (raw_scores scores) - lowest_of (raw_scores scores)
  <= max_spread ->
  scores !! i = Some a -> scores !! j = Some b ->
  (NormalizeScore scores).1 !! i = Some a' ->
  (NormalizeScore scores).1 !! j = Some b' ->
  NodeScore.Score a <= NodeScore.Score b ->
  NodeScore.Score a' <= NodeScore.Score b'.
Proof.
  intros Hrange Hspread Ha Hb Ha' Hb' Hle.
  rewrite (NormalizeScore_normalized scores Hrange Hspread) in Ha', Hb'.
  cbn [fst] in Ha', Hb'.
  apply normalized_lookup in Ha' as (a0 & Ha0 & _ & ->).
  apply normalized_lookup in Hb' as (b0 & Hb0 & _ & ->).
  rewrite Ha in Ha0. rewrite Hb in Hb0.
  injection Ha0 as <-. injection Hb0 as <-.
  pose proof (raw_score_bounds scores i a Ha).
  pose proof (raw_score_bounds scores j b Hb).
  apply affine_monotone; lia.
Qed.

Lemma affine_lowest lowest highest :
  affine lowest highest framework.MinNodeScore framework.MaxNodeScore lowest
  = framework.MinNodeScore.
Proof.
  unfold affine. destruct (Z.eqb_spec lowest highest); [reflexivity|].
  rewrite Z.sub_diag, Z.mul_0_l, Z.quot_0_l by lia. reflexivity.
Qed.

Lemma affine_highest lowest highest :
  lowest <> highest ->
  affine lowest highest framework.MinNodeScore framework.MaxNodeScore highest
  = framework.MaxNodeScore.
Proof.
  intros Hne. unfold affine. destruct (Z.eqb_spec lowest highest); [lia|].
  rewrite Z.mul_comm, Z.quot_mul by lia. reflexivity.
Qed.

(** X3.  Within the spread that [int64] allows, and when the raw scores are
    not all equal, a node with the lowest raw score is normalised to
    [MinNodeScore] and a node with the highest raw score to
    [MaxNodeScore]. *)
Theorem NormalizeScore_extremes scores i a a' :
  Forall Int64.in_range (raw_scores scores) ->
  highest_of (raw_scores scores) - lowest_of (raw_scores scores)
  <= max_spread ->
  lowest_of (raw_scores scores) <> highest_of (raw_scores scores) ->
  scores !! i = Some a ->
  (NormalizeScore scores).1 !! i = Some a' ->
  (NodeScore.Score a = lowest_of (raw_scores scores) ->
   NodeScore.Score a' = framework.MinNodeScore)
  /\ (NodeScore.Score a = highest_of (raw_scores scores) ->
      NodeScore.Score a' = framework.MaxNodeScore).
Proof.
  intros Hrange Hspread Hne Ha Ha'.
  rewrite (NormalizeScore_normalized scores Hrange Hspread) in Ha'.
  cbn [fst] in Ha'.
  apply normalized_lookup in Ha' as (a0 & Ha0 & _ & ->).
  rewrite Ha in Ha0. injection Ha0 as <-. split; intros ->.
  - apply affine_lowest.
  - apply affine_highest, Hne.
Qed.

Lemma lowest_of_unique l m :
  m ∈ l -> (forall x, x ∈ l -> m <= x) -> lowest_of l = m.
Proof.
  intros Hm Hle.
  assert (Hl : l <> []) by (intros ->; inversion Hm).
  pose proof (lowest_of_le l m Hm).
  pose proof (Hle _ (lowest_of_elem l Hl)). lia.
Qed.

Lemma highest_of_unique l m :
  m ∈ l -> (forall x, x ∈ l -> x <= m) -> highest_of l = m.
Proof.
  intros Hm Hle.
  assert (Hl : l <> []) by (intros ->; inversion Hm).
  pose proof (highest_of_ge l m Hm).
  pose proof (Hle _ (highest_of_elem l Hl)). lia.
Qed.

Lemma raw_scores_normalized scores :
  raw_scores (normalized scores)
  = map (affine (lowest_of (raw_scores scores))
                (highest_of (raw_scores scores))
                framework.MinNodeScore framework.MaxNodeScore)
        (raw_scores scores).
Proof. unfold normalized, raw_scores. rewrite !map_map. reflexivity. Qed.

(** The scores of a normalised list are their own affine image. *)
Lemma normalized_fixed scores x :
  scores <> [] ->
  x ∈ raw_scores (normalized scores) ->
  affine (lowest_of (raw_scores (normalized scores)))
         (highest_of (raw_scores (normalized scores)))
         framework.MinNodeScore framework.MaxNodeScore x = x.
Proof.
  intros Hne Hx.
  set (lo := lowest_of (raw_scores scores)).
  set (hi := highest_of (raw_scores scores)).
  assert (Hraw : raw_scores scores <> [])
    by (destruct scores; [congruence|discriminate]).
  assert (Hbounds : forall y, y ∈ raw_scores (normalized scores) ->
                              framework.MinNodeScore <= y
                              <= framework.MaxNodeScore).
  { intros y Hy. rewrite raw_scores_normalized in Hy.
    apply list_elem_of_fmap in Hy as (r & -> & Hr). apply affine_bounds.
    split; [apply lowest_of_le|apply highest_of_ge]; exact Hr. }
  assert (Hmin : framework.MinNodeScore ∈ raw_scores (normalized scores)).
  { rewrite raw_scores_normalized. apply list_elem_of_fmap. exists lo.
    split; [symmetry; apply affine_lowest|apply lowest_of_elem, Hraw]. }
  rewrite (lowest_of_unique _ framework.MinNodeScore Hmin)
    by (intros y Hy; apply Hbounds, Hy).
  destruct (Z.eq_dec lo hi) as [Heq|Hneq].
  - assert (Hall : forall y, y ∈ raw_scores (normalized scores) ->
                             y = framework.MinNodeScore).
    { intros y Hy. rewrite raw_scores_normalized in Hy.
      apply list_elem_of_fmap in Hy as (r & -> & _).
      unfold affine. fold lo hi. rewrite Heq, Z.eqb_refl. reflexivity. }
    rewrite (highest_of_unique _ framework.MinNodeScore Hmin)
      by (intros y Hy; rewrite (Hall y Hy); lia).
    rewrite (Hall x Hx). unfold affine. rewrite Z.eqb_refl. reflexivity.
  - assert (Hmax : framework.MaxNodeScore ∈ raw_scores (normalized scores)).
    { rewrite raw_scores_normalized. apply list_elem_of_fmap. exists hi.
      split; [symmetry; apply affine_highest, Hneq|apply highest_of_elem, Hraw]. }
    rewrite (highest_of_unique _ framework.MaxNodeScore Hmax)
      by (intros y Hy; apply Hbounds, Hy).
    unfold affine, framework.MinNodeScore, framework.MaxNodeScore. cbn.
    rewrite Z.sub_0_r, Z.add_0_r. apply Z.quot_mul. discriminate.
Qed.

(** X4.  Within the spread that [int64] allows, normalising twice is
    normalising once: [NormalizeScore] leaves a list that it has normalised
    as it is. *)
Theorem NormalizeScore_idempotent scores :
  Forall Int64.in_range (raw_scores scores) ->
  highest_of (raw_scores scores) - lowest_of (raw_scores scores)
  <= max_spread ->
  NormalizeScore (NormalizeScore scores).1 = NormalizeScore scores.
Proof.
  intros Hrange Hspread.
  rewrite (NormalizeScore_normalized scores Hrange Hspread). cbn [fst].
  destruct (decide (scores = [])) as [->|Hne]; [reflexivity|].
  assert (Hraw : raw_scores scores <> [])
    by (destruct scores; [congruence|discriminate]).
  assert (Hbounds : forall y, y ∈ raw_scores (normalized scores) ->
                              0 <= y <= 100).
  { intros y Hy. rewrite raw_scores_normalized in Hy.
    apply list_elem_of_fmap in Hy as (r & -> & Hr).
    apply (affine_bounds (lowest_of (raw_scores scores))
                         (highest_of (raw_scores scores)) r).
    split; [apply lowest_of_le|apply highest_of_ge]; exact Hr. }
  assert (Hraw' : raw_scores (normalized scores) <> []).
  { rewrite raw_scores_normalized. destruct (raw_scores scores);
      [congruence|discriminate]. }
  rewrite NormalizeScore_normalized.
  - f_equal. unfold normalized at 1.
    transitivity (map id (normalized scores)); [|apply map_id].
    apply map_ext_in. intros out Hout. destruct out as [name score].
    cbn [NodeScore.Name NodeScore.Score]. unfold id. f_equal.
    apply normalized_fixed; [exact Hne|].
    apply list_elem_of_fmap. exists {| NodeScore.Name := name;
                                       NodeScore.Score := score |}.
    split; [reflexivity|apply list_elem_of_In, Hout].
  - rewrite Forall_forall. intros y Hy. specialize (Hbounds y Hy).
    unfold Int64.in_range, Int64.MinInt64, Int64.MaxInt64. lia.
  - pose proof (Hbounds _ (lowest_of_elem _ Hraw')).
    pose proof (Hbounds _ (highest_of_elem _ Hraw')).
    change max_spread with 92233720368547758. lia.
Qed.

End NormalizeExtras.

Lemma NormalizeScore_monotone_witness :
  Forall Int64.in_range (raw_scores scenario5)
  /\ highest_of (raw_scores scenario5) - lowest_of (raw_scores scenario5)
     <= max_spread
  /\ NodeScore.Score (scored "n1" 0) <= NodeScore.Score (scored "n2" 50).
Proof.
  split; [in_range_list|]. split; [vm_compute; discriminate|].
  apply (NormalizeScore_monotone scenario5 0 1 (scored "n1" 10)
           (scored "n2" 20) (scored "n1" 0) (scored "n2" 50));
    [in_range_list|vm_compute; discriminate|reflexivity..|cbn; lia].
Defined.

Lemma NormalizeScore_extremes_witness :
  Forall Int64.in_range (raw_scores scenario5)
  /\ lowest_of (raw_scores scenario5) <> highest_of (raw_scores scenario5)
  /\ (NodeScore.Score (scored "n3" 30) = highest_of (raw_scores scenario5) ->
      NodeScore.Score (scored "n3" 100) = framework.MaxNodeScore).
Proof.
  split; [in_range_list|]. split; [vm_compute; discriminate|].
  refine (proj2 (NormalizeScore_extremes scenario5 2 (scored "n3" 30)
                   (scored "n3" 100) _ _ _ _ _));
    [in_range_list|vm_compute; discriminate|vm_compute; discriminate
    |reflexivity|reflexivity].
Defined.

Lemma NormalizeScore_idempotent_witness :
  Forall Int64.in_range (raw_scores scenario5)
  /\ highest_of (raw_scores scenario5) - lowest_of (raw_scores scenario5)
     <= max_spread
  /\ NormalizeScore (NormalizeScore scenario5).1 = NormalizeScore scenario5.
Proof.
  split; [in_range_list|]. split; [vm_compute; discriminate|].
  apply (NormalizeScore_idempotent scenario5);
    [in_range_list|vm_compute; discriminate].
Defined.

(** ** Neighbours and shared SLO budgets *)

Section NeighborExtras.
Context `{E : GoEnv}.

Lemma shared_slos_loop_no_neighbor pod peerPod visit chainsSlos :
  existsb (neighbors_on peerPod) visit = false ->
  sophos.shared_slos_loop pod peerPod visit chainsSlos = chainsSlos.
Proof.
  induction visit as [|[key value] rest IH]; [reflexivity|].
  cbn [existsb neighbors_on sophos.shared_slos_loop]. intros H.
  apply orb_false_iff in H as [Hhere Hrest].
  destruct (sophos.is_chain_key key); [|exact (IH Hrest)].
  cbn [andb] in Hhere.
  destruct (ParseFloat value) as [index [err|]]; [reflexivity|].
  destruct (Pod.Labels peerPod !! key) as [peerValue|]; [|exact (IH Hrest)].
  destruct (ParseFloat peerValue) as [peerIndex err']. cbn [fst] in Hhere.
  rewrite Hhere. exact (IH Hrest).
Qed.

(** X5.  [GetSharedChainsSlos] returns budgets only for neighbours: when it
    returns a non-empty slice, [ArePodsNeighbors] holds of the same two pods.
    The test of [ArePodsNeighbors] that [Score] makes before the call
    therefore never discards a budget. *)
Theorem GetSharedChainsSlos_only_for_neighbors pod peerPod :
  sophos.GetSharedChainsSlos pod peerPod <> [] ->
  sophos.ArePodsNeighbors pod peerPod = true.
Proof.
  intros Hslos. apply not_false_iff_true. intros Hno. apply Hslos.
  unfold sophos.ArePodsNeighbors in Hno. unfold sophos.GetSharedChainsSlos.
  destruct (Pod.Labels pod !! "app-group") as [g|]; [|reflexivity].
  destruct (Pod.Labels peerPod !! "app-group") as [g'|]; [|reflexivity].
  destruct (negb (String.eqb g g')); [reflexivity|].
  rewrite neighbors_loop_existsb in Hno.
  apply shared_slos_loop_no_neighbor, Hno.
Qed.

Lemma sub_self_not_one (x : float64) :
  int64_unrepresentable S754_nan <> 1 -> sophos.one_apart x x = false.
Proof.
  intros Hnan. unfold sophos.one_apart.
  assert (Hsub : Float64.Abs (Float64.sub x x) = S754_zero false
                 \/ Float64.Abs (Float64.sub x x) = S754_nan).
  { unfold Float64.Abs, Float64.sub. destruct x as [s|s| |s m e].
    - left. destruct s; reflexivity.
    - right. destruct s; reflexivity.
    - right. reflexivity.
    - left. cbn [SFsub]. rewrite Z.sub_diag. reflexivity. }
  destruct Hsub as [-> | ->].
  - reflexivity.
  - apply Z.eqb_neq. exact Hnan.
Qed.

Context {OK : GoEnvOK E}.

(** X6.  No pod is a neighbour of itself, provided the conversion of NaN to
    [int64], which Go leaves to the platform, does not give 1: the values of
    ["inf"] and ["nan"] stage labels subtract to NaN. *)
Theorem ArePodsNeighbors_irreflexive pod :
  int64_unrepresentable S754_nan <> 1 ->
  sophos.ArePodsNeighbors pod pod = false.
Proof.
  intros Hnan. apply not_true_is_false. rewrite ArePodsNeighbors_spec.
  intros [_ (key & value & value' & _ & Hv & Hv' & Hone)].
  rewrite Hv in Hv'. injection Hv' as <-.
  rewrite (sub_self_not_one _ Hnan) in Hone. discriminate.
Qed.

(** X7.  A listing of predecessors that fails holds the pod back: if the
    request for the pods one stage before some stage key with index greater
    than 0 returns an error, [AreLesserOrderPodsScheduled] returns false. *)
Theorem AreLesserOrderPodsScheduled_listing_error
        handle pod appGroup key value index :
  Pod.Labels pod !! "app-group" = Some appGroup ->
  Pod.Labels pod !! key = Some value ->
  sophos.is_chain_key key = true ->
  strconv.Atoi value = Some index ->
  0 < index ->
  Pods_List handle (Pod.Namespace pod)
            (sophos.lesser_order_selector appGroup key index) = None ->
  sophos.AreLesserOrderPodsScheduled handle pod = false.
Proof.
  intros Hgroup Hkv Hkey Hatoi Hpos Herr.
  unfold sophos.AreLesserOrderPodsScheduled. rewrite Hgroup.
  apply not_true_is_false. rewrite lesser_order_loop_forallb, forallb_range.
  intros H. specialize (H key value Hkv). cbn [lesser_order_ok] in H.
  rewrite Hkey, Hatoi, Herr in H.
  destruct (Z.ltb_spec 0 index); [discriminate|lia].
Qed.

End NeighborExtras.

Lemma GetSharedChainsSlos_only_for_neighbors_witness :
  @sophos.GetSharedChainsSlos Example_env.env_reversed A2 B2 <> []
  /\ @sophos.ArePodsNeighbors Example_env.env_reversed A2 B2 = true.
Proof.
  split; [vm_compute; discriminate|].
  apply (@GetSharedChainsSlos_only_for_neighbors Example_env.env_reversed A2 B2).
  vm_compute. discriminate.
Defined.

Lemma ArePodsNeighbors_irreflexive_witness :
  GoEnvOK Example_env.env
  /\ @int64_unrepresentable Example_env.env S754_nan <> 1
  /\ @sophos.ArePodsNeighbors Example_env.env W1 W1 = false.
Proof.
  split; [exact Example_env_ok|]. split; [vm_compute; discriminate|].
  apply (@ArePodsNeighbors_irreflexive Example_env.env Example_env_ok W1).
  vm_compute. discriminate.
Defined.

Lemma AreLesserOrderPodsScheduled_listing_error_witness :
  GoEnvOK Example_env.env
  /\ Pod.Labels W1 !! "chain-pipe" = Some "1"
  /\ Pods_List unreachable (Pod.Namespace W1)
               (sophos.lesser_order_selector "g" "chain-pipe" 1) = None
  /\ @sophos.AreLesserOrderPodsScheduled Example_env.env unreachable W1 = false.
Proof.
  split; [exact Example_env_ok|]. split; [vm_compute; reflexivity|].
  split; [reflexivity|].
  apply (@AreLesserOrderPodsScheduled_listing_error Example_env.env
           Example_env_ok unreachable W1 "g" "chain-pipe" "1" 1);
    try (vm_compute; reflexivity).
Defined.

(** ** The errors and the neutral cases of [NetworkSloAware.Score] *)

Section SloScoreExtras.
Context `{E : GoEnv}.

Lemma slo_nodes_loop_cases handle pod node clusterNodes score :
  (NetworkSloAware.nodes_loop handle pod node clusterNodes score
   = (0, Some framework.Error)
   /\ exists clusterNode,
        clusterNode ∈ clusterNodes
        /\ Pods_List handle (Pod.Namespace pod)
                     (NetworkSloAware.pods_on clusterNode) = None)
  \/ ((NetworkSloAware.nodes_loop handle pod node clusterNodes score).2 = None
      /\ forall clusterNode,
           clusterNode ∈ clusterNodes ->
           is_Some (Pods_List handle (Pod.Namespace pod)
                              (NetworkSloAware.pods_on clusterNode))).
Proof.
  revert score. induction clusterNodes as [|clusterNode rest IH]; intros score.
  - right. split; [reflexivity|]. intros cn Hcn. inversion Hcn.
  - cbn [NetworkSloAware.nodes_loop].
    destruct (Pods_List handle (Pod.Namespace pod)
                        (NetworkSloAware.pods_on clusterNode))
      as [items|] eqn:Hitems.
    + destruct (IH (NetworkSloAware.pods_loop handle pod
                      (sophos.GetNodeLatency (NodeInfo.Node node)
                                             (NodeInfo.Node clusterNode))
                      items score))
        as [[Herr (cn & Hcn & Hnone)]|[Hok Hall]].
      * left. split; [exact Herr|]. exists cn. split; [right; exact Hcn|exact Hnone].
      * right. split; [exact Hok|]. intros cn Hcn.
        apply elem_of_cons in Hcn as [->|Hcn]; [rewrite Hitems; eauto|auto].
    + left. split; [reflexivity|]. exists clusterNode. split; [left|exact Hitems].
Qed.

(** X8.  [NetworkSloAware.Score] returns an error exactly when one of its
    reads fails: the lookup of the node, the listing of the nodes, or the
    listing of the pods of some node.  Whenever it returns an error the score
    is 0, whatever had been accumulated. *)
Theorem NetworkSloAware_Score_errors handle pod nodeName :
  ((NetworkSloAware.Score handle pod nodeName).2 = None
   <-> exists node clusterNodes,
         NodeInfos_Get handle nodeName = Some node
         /\ NodeInfos_List handle = Some clusterNodes
         /\ forall clusterNode,
              clusterNode ∈ clusterNodes ->
              is_Some (Pods_List handle (Pod.Namespace pod)
                                 (NetworkSloAware.pods_on clusterNode)))
  /\ ((NetworkSloAware.Score handle pod nodeName).2 <> None ->
      NetworkSloAware.Score handle pod nodeName = (0, Some framework.Error)).
Proof.
  unfold NetworkSloAware.Score.
  destruct (NodeInfos_Get handle nodeName) as [node|].
  2:{ split; [|reflexivity]. split; [discriminate|].
      intros (? & ? & ? & _). discriminate. }
  destruct (NodeInfos_List handle) as [clusterNodes|].
  2:{ split; [|reflexivity]. split; [discriminate|].
      intros (? & ? & _ & ? & _). discriminate. }
  destruct (slo_nodes_loop_cases handle pod node clusterNodes 0)
    as [[Herr (cn & Hcn & Hnone)]|[Hok Hall]].
  - rewrite Herr. split; [|reflexivity]. split; [discriminate|].
    intros (node' & nodes' & _ & Hnodes & Hall). injection Hnodes as <-.
    destruct (Hall cn Hcn) as [items Hitems]. congruence.
  - split; [|intros Hbad; contradiction].
    split; [|intros _; exact Hok]. intros _. exists node, clusterNodes. auto.
Qed.

Lemma slo_pods_loop_no_neighbors handle pod nodeLatency items score :
  (forall peerPod, sophos.ArePodsNeighbors pod peerPod = false) ->
  NetworkSloAware.pods_loop handle pod nodeLatency items score = score.
Proof.
  intros Hno. induction items as [|peerPod rest IH]; [reflexivity|].
  cbn [NetworkSloAware.pods_loop]. rewrite Hno. exact IH.
Qed.

Lemma slo_nodes_loop_no_neighbors handle pod node clusterNodes :
  (forall peerPod, sophos.ArePodsNeighbors pod peerPod = false) ->
  (NetworkSloAware.nodes_loop handle pod node clusterNodes 0).1 = 0.
Proof.
  intros Hno. induction clusterNodes as [|clusterNode rest IH]; [reflexivity|].
  cbn [NetworkSloAware.nodes_loop].
  destruct (Pods_List _ _ _) as [items|]; [|reflexivity].
  rewrite slo_pods_loop_no_neighbors by exact Hno. exact IH.
Qed.

Context {OK : GoEnvOK E}.

(** X9.  A pod outside of every pipeline scores 0 on every node: when the
    pod has no pipeline-group label, or no stage key, [NetworkSloAware.Score]
    returns the score 0, whatever the cluster holds and whether or not its
    reads succeed. *)
Theorem NetworkSloAware_Score_outside_pipelines handle pod nodeName :
  Pod.Labels pod !! "app-group" = None
  \/ (forall key, sophos.is_chain_key key = true ->
                  Pod.Labels pod !! key = None) ->
  (NetworkSloAware.Score handle pod nodeName).1 = 0.
Proof.
  intros Hout.
  assert (Hno : forall peerPod, sophos.ArePodsNeighbors pod peerPod = false).
  { intros peerPod. apply not_true_is_false. rewrite ArePodsNeighbors_spec.
    intros [(g & Hg & _) (key & value & _ & Hkey & Hv & _)].
    destruct Hout as [Hnone|Hnone]; [congruence|].
    rewrite (Hnone key Hkey) in Hv. discriminate. }
  unfold NetworkSloAware.Score.
  destruct (NodeInfos_Get handle nodeName) as [node|]; [|reflexivity].
  destruct (NodeInfos_List handle) as [clusterNodes|]; [|reflexivity].
  apply slo_nodes_loop_no_neighbors, Hno.
Qed.

End SloScoreExtras.

Lemma NetworkSloAware_Score_outside_pipelines_witness :
  GoEnvOK Example_env.env
  /\ Pod.Labels bare !! "app-group" = None
  /\ (@NetworkSloAware.Score Example_env.env (Cluster.handle scenario4)
        bare "n1").1 = 0.
Proof.
  split; [exact Example_env_ok|]. split; [reflexivity|].
  apply (@NetworkSloAware_Score_outside_pipelines Example_env.env
           Example_env_ok (Cluster.handle scenario4) bare "n1").
  left. reflexivity.
Defined.

(** ** The network cost of [NetworkAware.Score] *)

Section NetworkCost.
Context `{E : GoEnv}.




Lemma GetAppTraffic_other_group pod peerPod :
  ~ same_group pod peerPod ->
  sophos_pod_annotations.GetAppTraffic pod peerPod = Float64.zero.
Proof.
  intros Hno. unfold sophos_pod_annotations.GetAppTraffic.
  destruct (Pod.Labels pod !! "app-group") as [g|] eqn:Hg; [|reflexivity].
  destruct (Pod.Labels peerPod !! "app-group") as [g'|] eqn:Hg'; [|reflexivity].
  destruct (String.eqb_spec g g') as [->|Hne]; [|reflexivity].
  exfalso. apply Hno. exists g'. auto.
Qed.

(** X11.  For a peer that is not in the pipeline group of the pod,
    [NetworkAware.Score] charges nothing as long as the latency between the
    two nodes is a number.  When the latency annotation reads as NaN or as an
    infinity, the product with the traffic 0.0 is NaN and the charge is
    whatever the platform converts NaN to. *)
Theorem NetworkAware_other_group_term node clusterNode pod peerPod :
  ~ same_group pod peerPod ->
  NetworkAware.traffic_term node clusterNode pod peerPod
  = if is_number (sophos.GetNodeLatency (NodeInfo.Node node)
                                        (NodeInfo.Node clusterNode))
    then 0
    else int64_unrepresentable S754_nan.
Proof.
  intros Hno. unfold NetworkAware.traffic_term.
  rewrite (GetAppTraffic_other_group pod peerPod Hno).
  destruct (sophos.GetNodeLatency _ _) as [s|s| |s m e]; reflexivity.
Qed.

End NetworkCost.


Lemma NetworkAware_other_group_term_witness :
  ~ same_group A bare
  /\ @NetworkAware.traffic_term Example_env.env N1 N2 A bare = 0.
Proof.
  assert (Hno : ~ same_group A bare).
  { intros (g & _ & Hg). discriminate Hg. }
  split; [exact Hno|].
  exact (@NetworkAware_other_group_term Example_env.env N1 N2 A bare Hno).
Defined.

(** ** The resource balance of [LoadAwareResourcesBalancedAllocation.Score] *)

Section NotFinite.

Lemma not_finite_div_zero a : not_finite (Float64.div a (Float64.of_Z 0)).
Proof. destruct a as [s|s| |s m e]; reflexivity. Qed.

Lemma not_finite_cases x :
  not_finite x -> x = S754_nan \/ exists s, x = S754_infinity s.
Proof.
  destruct x as [s|s| |s m e]; intros H; try discriminate H; eauto.
Qed.

Lemma not_finite_sub_l x y : not_finite x -> not_finite (Float64.sub x y).
Proof.
  intros H. destruct (not_finite_cases x H) as [->|[s ->]].
  - reflexivity.
  - destruct y as [sy|sy| |sy my ey]; try reflexivity.
    destruct s, sy; reflexivity.
Qed.

Lemma not_finite_sub_r x y : not_finite y -> not_finite (Float64.sub x y).
Proof.
  intros H. destruct (not_finite_cases y H) as [->|[s ->]].
  - destruct x; reflexivity.
  - destruct x as [sx|sx| |sx mx ex]; try reflexivity.
    destruct sx, s; reflexivity.
Qed.

Lemma not_finite_div_finite x s m e :
  not_finite x -> not_finite (Float64.div x (S754_finite s m e)).
Proof.
  intros H. destruct (not_finite_cases x H) as [->|[sx ->]]; reflexivity.
Qed.

Lemma not_finite_Abs x : not_finite x -> not_finite (Float64.Abs x).
Proof.
  intros H. destruct (not_finite_cases x H) as [->|[sx ->]]; reflexivity.
Qed.

Lemma not_finite_mul_finite x s m e :
  not_finite x -> not_finite (Float64.mul x (S754_finite s m e)).
Proof.
  intros H. destruct (not_finite_cases x H) as [->|[sx ->]]; reflexivity.
Qed.

Lemma not_finite_finite_sub s m e x :
  not_finite x -> not_finite (Float64.sub (S754_finite s m e) x).
Proof. apply not_finite_sub_r. Qed.

End NotFinite.

Section Balance.
Context `{E : GoEnv}.

Lemma int64_of_not_finite x :
  not_finite x -> int64_of_float64 x = int64_unrepresentable x.
Proof. unfold not_finite, int64_of_float64. intros ->. reflexivity. Qed.

(** X12.  [Score] does not guard the division by the allocatable resources:
    on a node whose allocatable CPU or memory is 0 the balance is NaN or an
    infinity, and the score is whatever the platform converts such a value
    to. *)
Theorem LoadAware_Score_zero_allocatable handle pod nodeName node :
  NodeInfos_Get handle nodeName = Some node ->
  NodeInfo.Allocatable_MilliCPU node = 0
  \/ NodeInfo.Allocatable_Memory node = 0 ->
  exists x,
    not_finite x
    /\ LoadAwareResourcesBalancedAllocation.Score handle pod nodeName
       = (int64_unrepresentable x, None).
Proof.
  intros Hnode Hzero. unfold LoadAwareResourcesBalancedAllocation.Score.
  rewrite Hnode.
  set (cpu := LoadAwareResourcesBalancedAllocation.usage_ratio _ _
                (NodeInfo.Allocatable_MilliCPU node)).
  set (mem := LoadAwareResourcesBalancedAllocation.usage_ratio _ _
                (NodeInfo.Allocatable_Memory node)).
  assert (Hdiff : not_finite (Float64.sub cpu mem)).
  { destruct Hzero as [Hz|Hz].
    - apply not_finite_sub_l. unfold cpu,
        LoadAwareResourcesBalancedAllocation.usage_ratio.
      rewrite Hz. apply not_finite_div_zero.
    - apply not_finite_sub_r. unfold mem,
        LoadAwareResourcesBalancedAllocation.usage_ratio.
      rewrite Hz. apply not_finite_div_zero. }
  eexists. split; [|rewrite int64_of_not_finite; [reflexivity|]].
  - change (Float64.of_Z framework.MaxNodeScore)
      with (S754_finite false 7036874417766400 (-46)).
    apply not_finite_mul_finite.
    change (Float64.of_Z 1) with (S754_finite false 4503599627370496 (-52)).
    apply not_finite_finite_sub, not_finite_Abs.
    change (Float64.of_Z 2) with (S754_finite false 4503599627370496 (-51)).
    apply not_finite_div_finite, Hdiff.
  - change (Float64.of_Z framework.MaxNodeScore)
      with (S754_finite false 7036874417766400 (-46)).
    apply not_finite_mul_finite.
    change (Float64.of_Z 1) with (S754_finite false 4503599627370496 (-52)).
    apply not_finite_finite_sub, not_finite_Abs.
    change (Float64.of_Z 2) with (S754_finite false 4503599627370496 (-51)).
    apply not_finite_div_finite, Hdiff.
Qed.

Lemma usage_ratio_unknown allocatable :
  0 < allocatable < 2 ^ 53 ->
  LoadAwareResourcesBalancedAllocation.usage_ratio
    Float64.zero Float64.zero allocatable
  = S754_zero true.
Proof.
  intros H. unfold LoadAwareResourcesBalancedAllocation.usage_ratio.
  rewrite (of_Z_integer allocatable H). reflexivity.
Qed.

(** X13.  Without any usage figure the balance is perfect: for a pod whose
    owner traversal fails, on a node that has no usage annotation and whose
    allocatable CPU and memory are positive (and below [2^53]), [Score]
    returns [MaxNodeScore]. *)
Theorem LoadAware_Score_unknown_usage handle pod nodeName node :
  NodeInfos_Get handle nodeName = Some node ->
  traversal_fails handle pod ->
  Node.Annotations (NodeInfo.Node node) !! "cpu-usage" = None ->
  Node.Annotations (NodeInfo.Node node) !! "memory-usage" = None ->
  0 < NodeInfo.Allocatable_MilliCPU node < 2 ^ 53 ->
  0 < NodeInfo.Allocatable_Memory node < 2 ^ 53 ->
  LoadAwareResourcesBalancedAllocation.Score handle pod nodeName
  = (framework.MaxNodeScore, None).
Proof.
  intros Hnode Hfails Hcpu Hmem Hc Hm.
  unfold LoadAwareResourcesBalancedAllocation.Score. rewrite Hnode.
  unfold sophos.GetAppCpuUsage, sophos.GetAppMemoryUsage.
  rewrite (GetOwnerDeployment_None handle pod Hfails).
  unfold sophos.GetNodeCpuUsage, sophos.GetNodeMemoryUsage,
    sophos.annotation_or_zero.
  rewrite Hcpu, Hmem, (usage_ratio_unknown _ Hc), (usage_ratio_unknown _ Hm).
  reflexivity.
Qed.

End Balance.

Lemma LoadAware_Score_zero_allocatable_witness :
  NodeInfos_Get (Cluster.handle empty_node_cluster) "n0" = Some N0
  /\ NodeInfo.Allocatable_MilliCPU N0 = 0
  /\ exists x,
       not_finite x
       /\ @LoadAwareResourcesBalancedAllocation.Score Example_env.env
            (Cluster.handle empty_node_cluster) orphan "n0"
          = (@int64_unrepresentable Example_env.env x, None).
Proof.
  split; [reflexivity|]. split; [reflexivity|].
  apply (@LoadAware_Score_zero_allocatable Example_env.env
           (Cluster.handle empty_node_cluster) orphan "n0" N0);
    [reflexivity|left; reflexivity].
Defined.

Lemma LoadAware_Score_unknown_usage_witness :
  NodeInfos_Get (Cluster.handle scenario4) "n2" = Some N2
  /\ traversal_fails (Cluster.handle scenario4) orphan
  /\ @LoadAwareResourcesBalancedAllocation.Score Example_env.env
       (Cluster.handle scenario4) orphan "n2"
     = (framework.MaxNodeScore, None).
Proof.
  split; [reflexivity|]. split; [apply no_owner; reflexivity|].
  apply (@LoadAware_Score_unknown_usage Example_env.env
           (Cluster.handle scenario4) orphan "n2" N2);
    [reflexivity|apply no_owner; reflexivity|reflexivity|reflexivity
    |cbn; lia|cbn; lia].
Defined.

(** ** What the helpers read of a pod *)

Section Reads.
Context `{E : GoEnv}.

Lemma GetOwnerDeployment_first_owner_only handle pod pod' :
  Pod.Namespace pod = Pod.Namespace pod' ->
  head (Pod.OwnerReferences pod) = head (Pod.OwnerReferences pod') ->
  sophos.GetOwnerDeployment handle pod = sophos.GetOwnerDeployment handle pod'.
Proof.
  intros Hns Hhead. unfold sophos.GetOwnerDeployment. rewrite Hns.
  destruct (Pod.OwnerReferences pod) as [|o os],
    (Pod.OwnerReferences pod') as [|o' os']; try discriminate Hhead;
    [reflexivity|].
  injection Hhead as <-. reflexivity.
Qed.

(** X14.  The owner traversal looks at the first owner reference only, and
    the usage figures at nothing else of the pod: two pods of the same
    namespace with the same first owner reference get the same predicted CPU
    usage, the same predicted memory usage and, on every node, the same
    score of [LoadAwareResourcesBalancedAllocation], whatever their labels,
    their annotations and their other owner references. *)
Theorem usage_depends_on_first_owner handle pod pod' nodeName :
  Pod.Namespace pod = Pod.Namespace pod' ->
  head (Pod.OwnerReferences pod) = head (Pod.OwnerReferences pod') ->
  sophos.GetAppCpuUsage handle pod = sophos.GetAppCpuUsage handle pod'
  /\ sophos.GetAppMemoryUsage handle pod = sophos.GetAppMemoryUsage handle pod'
  /\ LoadAwareResourcesBalancedAllocation.Score handle pod nodeName
     = LoadAwareResourcesBalancedAllocation.Score handle pod' nodeName.
Proof.
  intros Hns Hhead.
  pose proof (GetOwnerDeployment_first_owner_only handle pod pod' Hns Hhead)
    as Hsame.
  assert (Hcpu : sophos.GetAppCpuUsage handle pod
                 = sophos.GetAppCpuUsage handle pod')
    by (unfold sophos.GetAppCpuUsage; rewrite Hsame; reflexivity).
  assert (Hmem : sophos.GetAppMemoryUsage handle pod
                 = sophos.GetAppMemoryUsage handle pod')
    by (unfold sophos.GetAppMemoryUsage; rewrite Hsame; reflexivity).
  split; [exact Hcpu|]. split; [exact Hmem|].
  unfold LoadAwareResourcesBalancedAllocation.Score.
  rewrite Hcpu, Hmem. reflexivity.
Qed.

(** X15.  The request rate is read from the annotations of the pod itself,
    in both revisions of the helpers: the owner deployment only decides
    whether it is read at all, and its annotations play no part.  The traffic
    of the same revision is read from the deployment and does not depend on
    the annotations of the pod. *)
Theorem GetAppRequestsPerSecond_reads_pod handle pod peerPod :
  sophos.GetAppRequestsPerSecond handle pod peerPod
  = match sophos.GetOwnerDeployment handle pod with
    | Some _ => sophos_pod_annotations.GetAppRequestsPerSecond pod peerPod
    | None => Float64.zero
    end
  /\ forall annotations,
       sophos.GetAppTraffic
         handle (with_metadata (Pod.Labels pod) annotations pod) peerPod
       = sophos.GetAppTraffic handle pod peerPod.
Proof.
  split; [|reflexivity].
  unfold sophos.GetAppRequestsPerSecond,
    sophos_pod_annotations.GetAppRequestsPerSecond.
  destruct (Pod.Labels pod !! "app-group") as [g|];
    [|destruct (sophos.GetOwnerDeployment handle pod); reflexivity].
  destruct (Pod.Labels peerPod !! "app-group") as [g'|];
    [|destruct (sophos.GetOwnerDeployment handle pod); reflexivity].
  destruct (negb (String.eqb g g'));
    [destruct (sophos.GetOwnerDeployment handle pod); reflexivity|].
  destruct (Pod.Labels peerPod !! "app") as [peerApp|];
    destruct (sophos.GetOwnerDeployment handle pod); reflexivity.
Qed.

End Reads.

Lemma usage_depends_on_first_owner_witness :
  Pod.Namespace A = Pod.Namespace (with_metadata ∅ ∅ A)
  /\ head (Pod.OwnerReferences A)
     = head (Pod.OwnerReferences (with_metadata ∅ ∅ A))
  /\ @LoadAwareResourcesBalancedAllocation.Score Example_env.env
       (Cluster.handle scenario4) A "n1"
     = @LoadAwareResourcesBalancedAllocation.Score Example_env.env
         (Cluster.handle scenario4) (with_metadata ∅ ∅ A) "n1".
Proof.
  split; [reflexivity|]. split; [reflexivity|].
  refine (proj2 (proj2 (@usage_depends_on_first_owner Example_env.env
                          (Cluster.handle scenario4) A (with_metadata ∅ ∅ A)
                          "n1" _ _))); reflexivity.
Defined.

(** ** The selector of the predecessors *)

Section Selector.

Lemma digits_value_acc d a :
  strconv.digits_value (NilEmpty.string_of_uint d) (Z.pos a)
  = Some (Z.pos (Pos.of_uint_acc d a)).
Proof.
  revert a. induction d; intros a; cbn [NilEmpty.string_of_uint strconv.digits_value Pos.of_uint_acc];
    try reflexivity;
    (change (strconv.digit_of _) with (Some 0) || change (strconv.digit_of _) with (Some 1)
     || change (strconv.digit_of _) with (Some 2) || change (strconv.digit_of _) with (Some 3)
     || change (strconv.digit_of _) with (Some 4) || change (strconv.digit_of _) with (Some 5)
     || change (strconv.digit_of _) with (Some 6) || change (strconv.digit_of _) with (Some 7)
     || change (strconv.digit_of _) with (Some 8) || change (strconv.digit_of _) with (Some 9));
    cbv iota; rewrite <- IHd; f_equal; lia.
Qed.

Lemma digits_value_uint d :
  strconv.digits_value (NilEmpty.string_of_uint d) 0
  = Some (Z.of_N (Pos.of_uint d)).
Proof.
  induction d; cbn [NilEmpty.string_of_uint strconv.digits_value Pos.of_uint];
    try reflexivity;
    (change (strconv.digit_of _) with (Some 0) || change (strconv.digit_of _) with (Some 1)
     || change (strconv.digit_of _) with (Some 2) || change (strconv.digit_of _) with (Some 3)
     || change (strconv.digit_of _) with (Some 4) || change (strconv.digit_of _) with (Some 5)
     || change (strconv.digit_of _) with (Some 6) || change (strconv.digit_of _) with (Some 7)
     || change (strconv.digit_of _) with (Some 8) || change (strconv.digit_of _) with (Some 9));
    cbv iota; try exact IHd; apply (digits_value_acc d).
Qed.

Lemma uint_string_shape d :
  d <> Decimal.Nil ->
  strconv.split_sign (NilEmpty.string_of_uint d)
  = (false, NilEmpty.string_of_uint d)
  /\ NilEmpty.string_of_uint d <> EmptyString.
Proof. destruct d; intros H; try congruence; split; (reflexivity || discriminate). Qed.

Lemma Atoi_digits p :
  Int64.in_range (Z.pos p) ->
  strconv.Atoi (NilEmpty.string_of_uint (Pos.to_uint p)) = Some (Z.pos p).
Proof.
  intros Hr. unfold strconv.Atoi.
  destruct (uint_string_shape _ (DecimalPos.Unsigned.to_uint_nonnil p))
    as [Hsign Hne].
  rewrite Hsign.
  destruct (NilEmpty.string_of_uint (Pos.to_uint p)) as [|c r] eqn:Hs;
    [congruence|].
  rewrite <- Hs, digits_value_uint, DecimalPos.Unsigned.of_to.
  cbn [Z.of_N]. unfold Int64.in_rangeb.
  destruct Hr as [H1 H2].
  destruct (Z.leb_spec Int64.MinInt64 (Z.pos p)); [|lia].
  destruct (Z.leb_spec (Z.pos p) Int64.MaxInt64); [reflexivity|lia].
Qed.

Lemma Atoi_Itoa n :
  Int64.in_range n -> strconv.Atoi (strconv.Itoa n) = Some n.
Proof.
  intros Hr. destruct n as [|p|p].
  - reflexivity.
  - unfold strconv.Itoa. cbn [Z.to_int NilZero.string_of_int].
    unfold NilZero.string_of_uint.
    destruct (Pos.to_uint p) eqn:Hd;
      try (rewrite <- Hd; apply Atoi_digits, Hr).
    exfalso. exact (DecimalPos.Unsigned.to_uint_nonnil p Hd).
  - unfold strconv.Itoa. cbn [Z.to_int NilZero.string_of_int].
    unfold NilZero.string_of_uint.
    assert (Hbody : NilEmpty.string_of_uint (Pos.to_uint p) <> EmptyString)
      by apply (uint_string_shape _ (DecimalPos.Unsigned.to_uint_nonnil p)).
    assert (Hstr : match Pos.to_uint p with
                   | Decimal.Nil => "0"%string
                   | _ => NilEmpty.string_of_uint (Pos.to_uint p)
                   end = NilEmpty.string_of_uint (Pos.to_uint p)).
    { destruct (Pos.to_uint p) eqn:Hd; try reflexivity.
      exfalso. exact (DecimalPos.Unsigned.to_uint_nonnil p Hd). }
    rewrite Hstr. unfold strconv.Atoi. cbn [strconv.split_sign].
    destruct (NilEmpty.string_of_uint (Pos.to_uint p)) as [|c r] eqn:Hs;
      [congruence|].
    rewrite <- Hs, digits_value_uint, DecimalPos.Unsigned.of_to.
    cbn [Z.of_N]. change (- Z.pos p) with (Z.neg p). unfold Int64.in_rangeb.
    destruct Hr as [H1 H2].
    destruct (Z.leb_spec Int64.MinInt64 (Z.neg p)); [|lia].
    destruct (Z.leb_spec (Z.neg p) Int64.MaxInt64); [reflexivity|lia].
Qed.

(** X16.  The selector that [AreLesserOrderPodsScheduled] builds for a stage
    key with index greater than 0 requires two labels and no other: the
    pipeline group of the pod, and for the stage key a value that
    [strconv.Atoi] reads back as the index minus one.  The value of the pod
    itself for that key is a different string, so the pod is never among
    its own predecessors. *)
Theorem lesser_order_selector_reads_back appGroup key value index :
  sophos.is_chain_key key = true ->
  strconv.Atoi value = Some index ->
  0 < index ->
  let selector :=
    ListOptions.LabelSelector
      (sophos.lesser_order_selector appGroup key index) in
  selector !! "app-group" = Some appGroup
  /\ selector !! key ≫= strconv.Atoi = Some (index - 1)
  /\ (forall k v, selector !! k = Some v -> k = "app-group" \/ k = key)
  /\ selector !! key <> Some value.
Proof.
  intros Hkey Hatoi Hpos selector.
  pose proof (chain_key_not_group key Hkey) as Hne.
  assert (Hrange : Int64.in_range (index - 1)).
  { unfold strconv.Atoi in Hatoi.
    destruct (strconv.split_sign value) as [negative body].
    destruct body; [discriminate|].
    destruct (strconv.digits_value _ 0) as [n|]; [|discriminate].
    destruct (Int64.in_rangeb (if negative then - n else n)) eqn:Hr;
      [|discriminate].
    injection Hatoi as <-. unfold Int64.in_rangeb in Hr.
    apply andb_true_iff in Hr as [H1 H2].
    apply Z.leb_le in H1, H2.
    unfold Int64.in_range, Int64.MinInt64 in *. lia. }
  assert (Hsel : selector !! key = Some (strconv.Itoa (index - 1))).
  { unfold selector, sophos.lesser_order_selector. cbn.
    rewrite lookup_insert_ne by congruence. apply lookup_singleton_eq. }
  split; [apply lookup_insert_eq|]. split; [|split].
  - rewrite Hsel. cbn. apply Atoi_Itoa, Hrange.
  - intros k v Hkv. unfold selector, sophos.lesser_order_selector in Hkv.
    cbn in Hkv.
    apply lookup_insert_Some in Hkv as [[<- _]|[_ Hkv]]; [auto|].
    apply lookup_singleton_Some in Hkv as [<- _]. auto.
  - rewrite Hsel. intros [= Heq].
    pose proof (Atoi_Itoa (index - 1) Hrange) as Hback.
    rewrite Heq, Hatoi in Hback. injection Hback. lia.
Qed.

End Selector.

Lemma lesser_order_selector_reads_back_witness :
  sophos.is_chain_key "chain-pipe" = true
  /\ strconv.Atoi "2" = Some 2
  /\ ListOptions.LabelSelector
       (sophos.lesser_order_selector "g" "chain-pipe" 2) !! "chain-pipe"
     ≫= strconv.Atoi = Some (2 - 1).
Proof.
  split; [reflexivity|]. split; [reflexivity|].
  refine (proj1 (proj2 (lesser_order_selector_reads_back
                          "g" "chain-pipe" "2" 2 _ _ _)));
    [reflexivity|reflexivity|lia].
Defined.

(** ** The admission gate when the pods cannot be listed *)

Section Gate.
Context `{E : GoEnv} `{!GoEnvOK E}.

(** X17.  When every listing of pods fails, [PreFilter] answers [Success]
    for the pods that carry the pipeline-group label and whose stage label
    values all read as integers not above 0, negative ones included, and for
    every other pod the code that the conversion of [framework.Queue] gives,
    whichever that is. *)
Theorem PreFilter_when_listing_fails queue handle pod :
  (forall namespace opts, Pods_List handle namespace opts = None) ->
  let passes :=
    is_Some (Pod.Labels pod !! "app-group")
    /\ forall key value,
         sophos.is_chain_key key = true ->
         Pod.Labels pod !! key = Some value ->
         exists index, strconv.Atoi value = Some index /\ index <= 0 in
  (passes -> NetworkSloAware.PreFilter queue handle pod = framework.Success)
  /\ (~ passes -> NetworkSloAware.PreFilter queue handle pod = queue).
Proof.
  intros Hfails passes. unfold NetworkSloAware.PreFilter.
  assert (Hready : sophos.AreLesserOrderPodsScheduled handle pod = true
                   <-> passes).
  { unfold passes, sophos.AreLesserOrderPodsScheduled.
    destruct (Pod.Labels pod !! "app-group") as [appGroup|].
    - rewrite lesser_order_loop_forallb, forallb_range. split.
      + intros H. split; [eexists; reflexivity|].
        intros key value Hkey Hkv. specialize (H key value Hkv).
        cbn [lesser_order_ok] in H. rewrite Hkey in H.
        destruct (strconv.Atoi value) as [index|]; [|discriminate].
        exists index. split; [reflexivity|].
        destruct (Z.ltb_spec 0 index) as [Hpos|Hle]; [|exact Hle].
        rewrite Hfails in H. discriminate.
      + intros [_ H] key value Hkv. cbn [lesser_order_ok].
        destruct (sophos.is_chain_key key) eqn:Hkey; [|reflexivity].
        destruct (H key value Hkey Hkv) as (index & -> & Hle).
        destruct (Z.ltb_spec 0 index) as [Hpos|_]; [lia|reflexivity].
    - split; [discriminate|]. intros [[g Hg] _]. discriminate. }
  destruct (sophos.AreLesserOrderPodsScheduled handle pod); split.
  - reflexivity.
  - intros Hno. exfalso. apply Hno, Hready. reflexivity.
  - intros Hyes. apply Hready in Hyes. discriminate.
  - reflexivity.
Qed.

End Gate.

Lemma PreFilter_when_listing_fails_witness :
  (forall namespace opts, Pods_List unreachable namespace opts = None)
  /\ ~ (is_Some (Pod.Labels W1 !! "app-group")
        /\ forall key value,
             sophos.is_chain_key key = true ->
             Pod.Labels W1 !! key = Some value ->
             exists index, strconv.Atoi value = Some index /\ index <= 0)
  /\ @NetworkSloAware.PreFilter Example_env.env framework.Error unreachable W1
     = framework.Error.
Proof.
  assert (Hno : ~ (is_Some (Pod.Labels W1 !! "app-group")
                   /\ forall key value,
                        sophos.is_chain_key key = true ->
                        Pod.Labels W1 !! key = Some value ->
                        exists index,
                          strconv.Atoi value = Some index /\ index <= 0)).
  { intros [_ H].
    destruct (H "chain-pipe" "1" eq_refl eq_refl) as (index & Hindex & Hle).
    vm_compute in Hindex. injection Hindex as <-. lia. }
  split; [reflexivity|]. split; [exact Hno|].
  refine (proj2 (@PreFilter_when_listing_fails Example_env.env Example_env_ok
                   framework.Error unreachable W1 _) Hno).
  reflexivity.
Defined.
